(** * quick_browser_1: the bundler configuration and the build pipeline it drives

    [webpack.config.js] is embedded as a record, the regular expressions of
    its rules get an executable matcher, and rule selection and loader order
    are defined over them.  The pipeline that the configuration drives
    (resolver, transform cache, dependency graph, emitter) and the
    application it builds follow; the properties of both come after all
    definitions. *)

From stdpp Require Import gmap strings list.
From Stdlib Require Import Ascii String.


(** ** Regular expressions

    The configuration uses four literals: [/\.ts?$/], [/node_modules/],
    [/\.css$/i] and [/\.s[ac]ss$/i].  They are built from single characters,
    character classes, the optional quantifier, the end anchor and the
    ignore-case flag; the syntax below has exactly these constructs.
    Paths are strings of 8-bit code units. *)

Module Regex.

Inductive atom : Type :=
| Chr (c : ascii)
| Cls (cs : list ascii).

Inductive item : Type :=
| One (a : atom)
| Opt (a : atom).

Record regex : Type := RegExp {
  re_items : list item;
  re_anchored : bool;
  re_ignore_case : bool
}.

(** Canonicalisation of a code unit under the [i] flag: lower-case ASCII
    letters are mapped to upper case, everything else is left alone.  (The
    patterns of the configuration are ASCII, and under [i] a code unit
    outside ASCII never canonicalises to an ASCII one, so leaving the other
    code units alone gives the comparisons their outcome.) *)
Definition to_upper (c : ascii) : ascii :=
  let n := nat_of_ascii c in
  if (97 <=? n)%nat && (n <=? 122)%nat then ascii_of_nat (n - 32) else c.

Definition canonicalize (ignore_case : bool) (c : ascii) : ascii :=
  if ignore_case then to_upper c else c.

Definition char_matches (ic : bool) (x c : ascii) : bool :=
  Ascii.eqb (canonicalize ic x) (canonicalize ic c).

Definition atom_matches (ic : bool) (a : atom) (c : ascii) : bool :=
  match a with
  | Chr x => char_matches ic x c
  | Cls xs => existsb (fun x => char_matches ic x c) xs
  end.

Definition at_end (s : string) : bool :=
  match s with
  | EmptyString => true
  | String _ _ => false
  end.

(** [match_here] decides whether the items match a prefix of [s] (the whole
    of [s] when the expression ends in [$]). *)
Fixpoint match_here (ic anchored : bool) (items : list item) (s : string) : bool :=
  match items with
  | [] => if anchored then at_end s else true
  | One a :: rest =>
      match s with
      | String c s' => atom_matches ic a c && match_here ic anchored rest s'
      | EmptyString => false
      end
  | Opt a :: rest =>
      match s with
      | String c s' => atom_matches ic a c && match_here ic anchored rest s'
      | EmptyString => false
      end
      || match_here ic anchored rest s
  end.

(** [search] tries every start index, as [RegExp.prototype.test] does for an
    expression without a start anchor. *)
Fixpoint search (ic anchored : bool) (items : list item) (s : string) : bool :=
  match_here ic anchored items s
  || match s with
     | EmptyString => false
     | String _ s' => search ic anchored items s'
     end.

Definition regex_test (r : regex) (s : string) : bool :=
  search (re_ignore_case r) (re_anchored r) (re_items r) s.

Fixpoint literal (s : string) : list item :=
  match s with
  | EmptyString => []
  | String c s' => One (Chr c) :: literal s'
  end.

End Regex.

Import Regex.

(** ** The configuration object *)

Inductive Mode : Type := development | production.

Inductive Plugin : Type :=
| HtmlWebpackPlugin (template : string).

Record Rule : Type := {
  test : regex;
  use : list string;
  exclude : option regex
}.

Record Output : Type := { path : string }.

Record Resolve : Type := { extensions : list string }.

Record Configuration : Type := {
  mode : Mode;
  entry : string;
  output : Output;
  plugins : list Plugin;
  module_rules : list Rule;
  resolve : Resolve
}.

(** [path.resolve(__dirname, "build")]: [__dirname] is an absolute,
    normalised directory, so the result is the directory followed by the
    segment. *)
Definition path_resolve (dir segment : string) : string :=
  if String.eqb dir "/" then "/" +:+ segment else dir +:+ "/" +:+ segment.

(** [/\.ts?$/] *)
Definition re_ts : regex :=
  RegExp [One (Chr "."); One (Chr "t"); Opt (Chr "s")] true false.

(** [/node_modules/] *)
Definition re_node_modules : regex :=
  RegExp (literal "node_modules") false false.

(** [/\.css$/i] *)
Definition re_css : regex :=
  RegExp (literal ".css") true true.

(** [/\.s[ac]ss$/i] *)
Definition re_sass : regex :=
  RegExp [One (Chr "."); One (Chr "s"); One (Cls ["a"; "c"]%char);
          One (Chr "s"); One (Chr "s")] true true.

Definition ts_rule : Rule :=
  {| test := re_ts; use := ["ts-loader"]; exclude := Some re_node_modules |}.

Definition css_rule : Rule :=
  {| test := re_css; use := ["style-loader"; "css-loader"]; exclude := None |}.

Definition sass_rule : Rule :=
  {| test := re_sass;
     use := ["style-loader"; "css-loader"; "sass-loader"];
     exclude := None |}.

Definition module_exports (__dirname : string) : Configuration :=
  {| mode := development;
     entry := "./src/index.ts";
     output := {| path := path_resolve __dirname "build" |};
     plugins := [HtmlWebpackPlugin "./public/index.html"];
     module_rules := [ts_rule; css_rule; sass_rule];
     resolve := {| extensions := [".tsx"; ".ts"; ".js"] |} |}.

(** The mode can be overridden when the bundler is invoked (the documented
    production build runs it with [--mode production]); nothing else of the
    configuration depends on it. *)
Definition with_mode (m : Mode) (c : Configuration) : Configuration :=
  {| mode := m;
     entry := entry c;
     output := output c;
     plugins := plugins c;
     module_rules := module_rules c;
     resolve := resolve c |}.

(** ** Rule selection and loader order

    What the entries of a rule mean to the bundler, as the build notes of
    the repository put it: a rule handles the files its [test] pattern
    matches, [exclude] takes files out of it ("exclude node_modules from
    ts-loader"), and the loaders of a [use] array are "applied
    right-to-left". *)

Definition excluded (r : Rule) (resource : string) : bool :=
  match exclude r with
  | Some e => regex_test e resource
  | None => false
  end.

Definition rule_applies (r : Rule) (resource : string) : bool :=
  regex_test (test r) resource && negb (excluded r resource).

Definition matching_rules (c : Configuration) (resource : string) : list Rule :=
  List.filter (fun r => rule_applies r resource) (module_rules c).

(** The loaders of a resource as the rules list them, and the order in which
    they run: a [use] array is applied from its last entry to its first. *)
Definition loaders_for (c : Configuration) (resource : string) : list string :=
  flat_map use (matching_rules c resource).

Definition application_order (c : Configuration) (resource : string) : list string :=
  rev (loaders_for c resource).

(** How a compiled style reaches the page is decided by the loader that runs
    last: [style-loader] makes the script bundle inject it at run time; the
    build notes name [MiniCssExtractPlugin.loader] as "a production-time
    replacement for style-loader to extract CSS files". *)
Inductive StyleDelivery : Type :=
| InjectedAtRuntime
| SeparateFile
| NotAStyle.

Definition delivery_of_loader (l : string) : StyleDelivery :=
  if String.eqb l "style-loader" then InjectedAtRuntime
  else if String.eqb l "MiniCssExtractPlugin.loader" then SeparateFile
  else NotAStyle.

Definition style_delivery (c : Configuration) (resource : string) : StyleDelivery :=
  match List.last (map Some (application_order c resource)) None with
  | Some l => delivery_of_loader l
  | None => NotAStyle
  end.

(** The pieces of a string between the occurrences of a separator. *)
Fixpoint split_on (sep : ascii) (s : string) : list string :=
  match s with
  | EmptyString => [EmptyString]
  | String c s' =>
      if Ascii.eqb c sep then EmptyString :: split_on sep s'
      else match split_on sep s' with
           | piece :: rest => String c piece :: rest
           | [] => [String c EmptyString]
           end
  end.

(** The segments of a path, and the test for a file that lies under a
    [node_modules] directory: one of the directory segments of its path is
    [node_modules]. *)
Definition segments (p : string) : list string := split_on "/" p.

Definition directories (p : string) : list string := removelast (segments p).

Definition under_node_modules (p : string) : bool :=
  existsb (String.eqb "node_modules") (directories p).

(** * The build pipeline

    The configuration above is what the repository supplies; the pipeline it
    drives (resolver, transform cache, dependency graph, emitter) is not
    among the repository's sources and is modelled from its specification. *)

(** ** Source Resolver *)

(** A file system snapshot: the bytes of every file, by path. *)
Abbreviation FileSystem := (gmap string string).

Definition is_file (fs : FileSystem) (p : string) : bool :=
  match fs !! p with
  | Some _ => true
  | None => false
  end.

(** Modelled from the spec: the answer of the Source Resolver (the resolver
    is not among the sources): "a canonical identifier", an "external
    (non-bundled) reference", or "ResolutionError{specifier, fromUnit,
    reason}". *)
Inductive Resolution : Type :=
| Resolved (identity : string)
| External (specifier : string)
| ResolutionError (specifier fromUnit reason : string).

Definition is_relative (specifier : string) : bool :=
  String.prefix "./" specifier || String.prefix "../" specifier.

Definition is_absolute (specifier : string) : bool :=
  String.prefix "/" specifier.

(** Removal of [.] and [..] segments; [acc] holds the segments kept so far,
    innermost first. *)
Fixpoint normalize_onto (acc segs : list string) : list string :=
  match segs with
  | [] => rev acc
  | seg :: rest =>
      if String.eqb seg "." then normalize_onto acc rest
      else if String.eqb seg ".." then normalize_onto (tail acc) rest
      else normalize_onto (seg :: acc) rest
  end.

(** Modelled from the spec: the location an import specifier denotes, seen
    from the requesting unit (the resolver is not among the sources).  A
    relative specifier is taken from the requester's directory, any other
    specifier as it is written. *)
Definition locate (requester specifier : string) : string :=
  if is_relative specifier
  then String.concat "/"
         (normalize_onto [] (directories requester ++ segments specifier))
  else specifier.

Definition extension_candidates (exts : list string) (base : string) : list string :=
  map (fun e => base +:+ e) exts.

Definition index_candidates (exts : list string) (base : string) : list string :=
  map (fun e => base +:+ "/index" +:+ e) exts.

(** Modelled from the spec: the Source Resolver, whose code is not among the
    sources.  "Resolution order is deterministic: exact path, extension
    candidates in a fixed, configured priority list, directory index
    fallback, external (non-bundled) reference"; it "fails with
    ResolutionError" when nothing matches.  A specifier that names a file
    (relative or absolute) and matches nothing is the error; any other
    unmatched specifier is an external reference. *)
Definition resolve_import (fs : FileSystem) (exts : list string)
    (requester specifier : string) : Resolution :=
  let base := locate requester specifier in
  if is_file fs base then Resolved base
  else
    match List.find (is_file fs) (extension_candidates exts base) with
    | Some p => Resolved p
    | None =>
        match List.find (is_file fs) (index_candidates exts base) with
        | Some p => Resolved p
        | None =>
            if is_relative specifier || is_absolute specifier
            then ResolutionError specifier requester "no matching file"
            else External specifier
        end
    end.

(** The resolver as the configuration sets it up: the priority list is
    [resolve.extensions]. *)
Definition resolve_with (c : Configuration) (fs : FileSystem)
    (requester specifier : string) : Resolution :=
  resolve_import fs (extensions (resolve c)) requester specifier.

(** Every path the resolver may look at, in the order it looks. *)
Definition candidates (exts : list string) (requester specifier : string) : list string :=
  let base := locate requester specifier in
  base :: extension_candidates exts base ++ index_candidates exts base.

(** ** Transform Pipeline *)

(** Modelled from the spec: the source kinds and the result of a transform
    (the Transform Pipeline is not among the sources): "emitted code/text,
    static dependency specifiers, diagnostics"; a fatal error produces no
    output. *)
Inductive SourceKind : Type := script | stylesheet | markup | asset.

Record TransformResult : Type := {
  code : string;
  dependencies : list string;
  diagnostics : list string
}.

Inductive TransformOutcome : Type :=
| Transformed (r : TransformResult)
| TransformError (reason : string).

(** Modelled from the spec: the capabilities and settings the pipeline is
    given and does not define (none of them is among the sources): the
    per-kind transform, "a deterministic, side-effect-free function of its
    input bytes and options"; the content hash, "a deterministic digest";
    the production size-reduction pass, which may fail; the two fixed
    placeholder markers of the HTML shell, each a line of the template; and
    the cache size limit, a number of entries. *)
Record Toolchain : Type := {
  transform : SourceKind -> list string -> string -> TransformOutcome;
  digest : string -> string;
  minify : string -> option string;
  script_marker : string;
  style_marker : string;
  cache_limit : nat
}.

Definition newline : string := String "010" "".

Definition has_suffix (suffix s : string) : bool :=
  regex_test (RegExp (literal suffix) true false) s.

Definition template_path (c : Configuration) : option string :=
  match plugins c with
  | HtmlWebpackPlugin template :: _ => Some (locate "" template)
  | [] => None
  end.

(** Modelled from the spec: the detected kind of a source unit (the
    detection is not among the sources).  A unit that a style rule handles
    is a stylesheet, the template of the HTML plugin is markup, a unit with
    one of the resolvable extensions is a script, anything else an opaque
    asset. *)
Definition kind_of (c : Configuration) (id : string) : SourceKind :=
  match style_delivery c id with
  | InjectedAtRuntime | SeparateFile => stylesheet
  | NotAStyle =>
      if bool_decide (template_path c = Some id) then markup
      else if existsb (fun e => has_suffix e id) (extensions (resolve c)) then script
      else asset
  end.

(** The options of a unit's transform are the loaders the configuration
    selects for it, in the order they run. *)
Definition transform_options (c : Configuration) (id : string) : list string :=
  application_order c id.

Definition options_text (opts : list string) : string := String.concat "!" opts.

(** ** Build Cache *)

(** Modelled from the spec: the Build Cache (not among the sources), a store
    "mapping (source identifier, content hash, transform options hash) to a
    cached transform result".  The entries are kept in the order of their
    last use, the most recently used first, so that the least recently used
    one can be evicted; each carries the checksum of what was stored, for
    the integrity verification on read.  The two counters record how often
    a lookup was answered from the store and how often a transform had to
    run. *)
Abbreviation CacheKey := (string * string * string)%type.

Record CacheEntry : Type := {
  stored : TransformResult;
  checksum : string
}.

Record BuildCache : Type := {
  entries : list (CacheKey * CacheEntry);
  hits : nat;
  misses : nat
}.

Definition empty_cache : BuildCache :=
  {| entries := []; hits := 0; misses := 0 |}.

Definition cache_key (tc : Toolchain) (c : Configuration) (id bytes : string) : CacheKey :=
  (id, digest tc bytes, digest tc (options_text (transform_options c id))).

Fixpoint lookup_entry (k : CacheKey) (l : list (CacheKey * CacheEntry)) : option CacheEntry :=
  match l with
  | [] => None
  | (k', e) :: rest => if bool_decide (k' = k) then Some e else lookup_entry k rest
  end.

Definition remove_entry (k : CacheKey) (l : list (CacheKey * CacheEntry))
    : list (CacheKey * CacheEntry) :=
  List.filter (fun p => negb (bool_decide (fst p = k))) l.

(** The checksum of a stored result: the digest of its text. *)
Definition result_text (r : TransformResult) : string :=
  String.concat newline (code r :: dependencies r ++ diagnostics r).

Definition seal (tc : Toolchain) (r : TransformResult) : string :=
  digest tc (result_text r).

Definition intact (tc : Toolchain) (e : CacheEntry) : bool :=
  String.eqb (checksum e) (seal tc (stored e)).

(** [get]: "a stored entry [that] fails integrity verification on read [is]
    treated as a forced cache miss, never propagated to the caller". *)
Definition cache_get (tc : Toolchain) (k : CacheKey) (bc : BuildCache)
    : option TransformResult :=
  match lookup_entry k (entries bc) with
  | Some e => if intact tc e then Some (stored e) else None
  | None => None
  end.

(** An entry that is used moves to the front. *)
Definition touch (k : CacheKey) (bc : BuildCache) : BuildCache :=
  match lookup_entry k (entries bc) with
  | Some e => {| entries := (k, e) :: remove_entry k (entries bc);
                 hits := hits bc; misses := misses bc |}
  | None => bc
  end.

(** [put]: the new entry goes to the front, in place of any entry under the
    same key, and the entries beyond the size limit, the least recently used
    ones, are evicted. *)
Definition cache_put (tc : Toolchain) (k : CacheKey) (r : TransformResult)
    (bc : BuildCache) : BuildCache :=
  {| entries := take (cache_limit tc)
                  ((k, {| stored := r; checksum := seal tc r |})
                     :: remove_entry k (entries bc));
     hits := hits bc; misses := misses bc |}.

Definition count_hit (bc : BuildCache) : BuildCache :=
  {| entries := entries bc; hits := S (hits bc); misses := misses bc |}.

Definition count_miss (bc : BuildCache) : BuildCache :=
  {| entries := entries bc; hits := hits bc; misses := S (misses bc) |}.

(** Modelled from the spec: the cache "consulted before invoking the
    Transform Pipeline", keyed by "(source identifier, content hash,
    transform options hash)", with least-recently-used eviction at the size
    limit and the integrity verification on read.  Only a produced result
    is stored. *)
Definition cached_transform (tc : Toolchain) (c : Configuration)
    (id bytes : string) (bc : BuildCache) : TransformOutcome * BuildCache :=
  let k := cache_key tc c id bytes in
  match cache_get tc k bc with
  | Some r => (Transformed r, touch k (count_hit bc))
  | None =>
      match transform tc (kind_of c id) (transform_options c id) bytes with
      | Transformed r => (Transformed r, cache_put tc k r (count_miss bc))
      | TransformError reason => (TransformError reason, count_miss bc)
      end
  end.

(** ** Dependency Graph *)

(** Modelled from the spec: the fatal errors of a build and the state of
    graph construction (the orchestrator is not among the sources).  A build
    stops at its first fatal error. *)
Inductive BuildError : Type :=
| ResolutionFailed (specifier fromUnit reason : string)
| TransformFailed (source reason : string)
| CycleError (cycleMembers : list string)
| Unreadable (source : string)
| OutOfFuel.

Inductive Result (A : Type) : Type :=
| Ok (a : A)
| Err (e : BuildError).
Arguments Ok {A} a.
Arguments Err {A} e.

#[export] Instance result_ret : MRet Result := fun A a => Ok a.
#[export] Instance result_bind : MBind Result :=
  fun A B k r => match r with Ok a => k a | Err e => Err e end.

Record GraphNode : Type := {
  node_result : TransformResult;
  node_edges : list string
}.

Record BuildState : Type := {
  graph : gmap string GraphNode;
  cache : BuildCache
}.

(** The static dependency specifiers of a unit, resolved: an external
    reference is not bundled and adds no edge, an unresolvable one is
    fatal. *)
Fixpoint resolve_all (c : Configuration) (fs : FileSystem) (requester : string)
    (specifiers : list string) : Result (list string) :=
  match specifiers with
  | [] => Ok []
  | s :: rest =>
      match resolve_with c fs requester s with
      | Resolved id => ids ← resolve_all c fs requester rest; Ok (id :: ids)
      | External _ => resolve_all c fs requester rest
      | ResolutionError sp from reason => Err (ResolutionFailed sp from reason)
      end
  end.

(** Modelled from the spec: graph construction from an entry point (the
    orchestrator is not among the sources).  A unit is read, transformed
    through the cache, its dependencies are resolved and recorded as edges,
    and the walk goes on into each of them in the order they are declared;
    a unit already in the graph is not visited again.  A fatal error ends
    the walk. *)
Fixpoint discover (tc : Toolchain) (c : Configuration) (fs : FileSystem)
    (fuel : nat) (id : string) (st : BuildState) : Result BuildState :=
  match fuel with
  | 0 => Err OutOfFuel
  | S fuel' =>
      match graph st !! id with
      | Some _ => Ok st
      | None =>
          match fs !! id with
          | None => Err (Unreadable id)
          | Some bytes =>
              match cached_transform tc c id bytes (cache st) with
              | (TransformError reason, _) => Err (TransformFailed id reason)
              | (Transformed r, bc) =>
                  edges ← resolve_all c fs id (dependencies r);
                  foldl (fun acc dep => st' ← acc; discover tc c fs fuel' dep st')
                        (Ok {| graph := <[id := {| node_result := r;
                                                   node_edges := edges |}]> (graph st);
                               cache := bc |})
                        edges
              end
          end
      end
  end.

Definition mem (x : string) (l : list string) : bool := existsb (String.eqb x) l.

(** The members of the cycle closed by reaching [id] again: the units on the
    walk's stack from [id] up to the current one. *)
Fixpoint cycle_members (stack : list string) (id : string) : list string :=
  match stack with
  | [] => [id]
  | top :: below =>
      if String.eqb top id then [id] else cycle_members below id ++ [top]
  end.

(** Modelled from the spec: [topologicalOrder], "ordered sequence or
    CycleError".  A unit is placed after all its static dependencies, ties
    are broken by first discovery (edges are followed in declaration order);
    every declared dependency is taken as required at definition time, so a
    cycle is an error that names its members. *)
Fixpoint visit (g : gmap string GraphNode) (fuel : nat) (stack : list string)
    (id : string) (done : list string) : Result (list string) :=
  match fuel with
  | 0 => Err OutOfFuel
  | S fuel' =>
      if mem id done then Ok done
      else if mem id stack then Err (CycleError (cycle_members stack id))
      else
        match g !! id with
        | None => Ok done
        | Some n =>
            done' ← foldl (fun acc dep => d ← acc; visit g fuel' (id :: stack) dep d)
                          (Ok done) (node_edges n);
            Ok (done' ++ [id])
        end
  end.

Definition topologicalOrder (g : gmap string GraphNode) (entryPoint : string)
    : Result (list string) :=
  visit g (S (size g)) [] entryPoint [].

(** ** Bundler/Emitter *)

(** Modelled from the spec: the OutputChunk ("ordered member list, computed
    hash of final contents, target file name"), the emitted files and the
    AssetManifest (the emitter is not among the sources). *)
Record OutputChunk : Type := {
  logical_name : string;
  extension : string;
  members : list string;
  final_bytes : string;
  content_hash : string
}.

Record Asset : Type := {
  file_name : string;
  contents : string
}.

Record AssetManifest : Type := {
  chunks : list OutputChunk;
  files : list Asset;
  warnings : list string
}.

(** The eight-character hash of a file name: the first eight characters of
    the digest (a shorter digest is filled up with zeros). *)
Definition hash8 (tc : Toolchain) (bytes : string) : string :=
  String.substring 0 8 (digest tc bytes +:+ "00000000").

Definition chunk_file_name (ch : OutputChunk) : string :=
  logical_name ch +:+ "." +:+ content_hash ch +:+ "." +:+ extension ch.

Definition in_output_dir (c : Configuration) (name : string) : string :=
  path (output c) +:+ "/" +:+ name.

Definition member_code (g : gmap string GraphNode) (id : string) : string :=
  match g !! id with
  | Some n => "/* " +:+ id +:+ " */" +:+ newline +:+ code (node_result n) +:+ newline
  | None => ""
  end.

(** The size-reduction pass runs in production mode only; when it fails the
    unminified bytes are emitted with a warning. *)
Definition reduce (tc : Toolchain) (m : Mode) (raw : string) : string * list string :=
  match m with
  | development => (raw, [])
  | production =>
      match minify tc raw with
      | Some small => (small, [])
      | None => (raw, ["minification failed: unminified output emitted"])
      end
  end.

Definition make_chunk (tc : Toolchain) (c : Configuration) (g : gmap string GraphNode)
    (name ext : string) (ids : list string) : OutputChunk * list string :=
  let '(bytes, ws) := reduce tc (mode c) (String.concat "" (map (member_code g) ids)) in
  ({| logical_name := name; extension := ext; members := ids;
      final_bytes := bytes; content_hash := hash8 tc bytes |}, ws).

Definition separate_style (c : Configuration) (id : string) : bool :=
  match style_delivery c id with
  | SeparateFile => true
  | _ => false
  end.

Definition script_tag (name : string) : string :=
  "<script defer src='" +:+ name +:+ "'></script>".

Definition style_tag (name : string) : string :=
  "<link rel='stylesheet' href='" +:+ name +:+ "'>".

Definition lines (s : string) : list string := split_on "010" s.

Definition unlines (l : list string) : string := String.concat newline l.

(** A line of the template that is one of the two markers is replaced by the
    references to the hashed files; every other line is kept. *)
Definition fill_line (tc : Toolchain) (scripts styles : list string) (line : string) : string :=
  if String.eqb line (script_marker tc) then unlines (map script_tag scripts)
  else if String.eqb line (style_marker tc) then unlines (map style_tag styles)
  else line.

Definition inject (tc : Toolchain) (scripts styles : list string) (template : string) : string :=
  unlines (map (fill_line tc scripts styles) (lines template)).

Definition chunk_asset (c : Configuration) (ch : OutputChunk) : Asset :=
  {| file_name := in_output_dir c (chunk_file_name ch); contents := final_bytes ch |}.

(** The configuration names one entry and gives it no name of its own; its
    chunk goes by the name the specification's scenario uses. *)
Definition entry_name : string := "main".

(** Modelled from the spec: [emit] for the single configured entry point
    (the emitter is not among the sources).  The reachable units, in
    topological order, form the script chunk.  Whether a style goes to a
    file of its own is what the loader chain of the configuration says
    ([style_delivery]): such units form the style output, the others stay
    in the script chunk, which injects them at run time.  Each chunk is
    reduced (in production), hashed over its final bytes and named
    [<logical-name>.<hash8>.<ext>] in the output directory; the references
    are injected into the HTML shell. *)
Definition emit (tc : Toolchain) (c : Configuration) (fs : FileSystem)
    (g : gmap string GraphNode) (order : list string) : Result AssetManifest :=
  let style_ids := List.filter (separate_style c) order in
  let script_ids := List.filter (fun id => negb (separate_style c id)) order in
  let '(script_chunk, w1) := make_chunk tc c g entry_name "js" script_ids in
  let '(style_chunks, w2) :=
    match style_ids with
    | [] => ([], [])
    | _ :: _ => let '(ch, w) := make_chunk tc c g entry_name "css" style_ids in ([ch], w)
    end in
  let all_chunks := script_chunk :: style_chunks in
  match template_path c with
  | None =>
      Ok {| chunks := all_chunks; files := map (chunk_asset c) all_chunks;
            warnings := w1 ++ w2 |}
  | Some t =>
      match fs !! t with
      | None => Err (Unreadable t)
      | Some template =>
          let html :=
            {| file_name := in_output_dir c "index.html";
               contents := inject tc [chunk_file_name script_chunk]
                             (map chunk_file_name style_chunks) template |} in
          Ok {| chunks := all_chunks;
                files := html :: map (chunk_asset c) all_chunks;
                warnings := w1 ++ w2 |}
      end
  end.

(** Modelled from the spec: one build: the entry point is resolved, the graph
    is constructed from it through the cache, ordered, and emitted.  The
    result carries the cache the build leaves behind. *)
Definition build (tc : Toolchain) (c : Configuration) (fs : FileSystem)
    (bc : BuildCache) : Result (AssetManifest * BuildCache) :=
  match resolve_with c fs "" (entry c) with
  | Resolved e =>
      st ← discover tc c fs (S (size fs)) e {| graph := ∅; cache := bc |};
      order ← topologicalOrder (graph st) e;
      m ← emit tc c fs (graph st) order;
      Ok (m, cache st)
  | External s => Err (ResolutionFailed s "" "the entry point is not a file")
  | ResolutionError s from reason => Err (ResolutionFailed s from reason)
  end.

(** The digest gives two different texts different values. *)
Definition collision_free (tc : Toolchain) : Prop :=
  forall a b, digest tc a = digest tc b -> a = b.

(** The invariant of the cache: the entry served under the key of a unit's
    bytes is what a fresh transform of these bytes gives.  ("A
    TransformResult is valid only as long as its key's content hash matches
    the current SourceUnit".) *)
Definition cache_valid (tc : Toolchain) (c : Configuration) (bc : BuildCache) : Prop :=
  forall id bytes r,
    cache_get tc (cache_key tc c id bytes) bc = Some r ->
    transform tc (kind_of c id) (transform_options c id) bytes = Transformed r.

(** Two results of a graph walk agree when they are the same error, or
    states with the same graph whose caches are still valid. *)
Definition agree (tc : Toolchain) (c : Configuration)
    (r1 r2 : Result BuildState) : Prop :=
  match r1, r2 with
  | Ok s1, Ok s2 =>
      graph s1 = graph s2 /\
      cache_valid tc c (cache s1) /\ cache_valid tc c (cache s2)
  | Err e1, Err e2 => e1 = e2
  | _, _ => False
  end.

(** What a build emits, without the cache it leaves behind. *)
Definition outcome (r : Result (AssetManifest * BuildCache)) : Result AssetManifest :=
  match r with
  | Ok (m, _) => Ok m
  | Err e => Err e
  end.

(** The cache after a history of builds, each over its own snapshot of the
    files: a build that succeeds commits the cache it leaves behind, a build
    that fails commits nothing. *)
Definition rebuild (tc : Toolchain) (c : Configuration) (bc : BuildCache)
    (fs : FileSystem) : BuildCache :=
  match build tc c fs bc with
  | Ok (_, bc') => bc'
  | Err _ => bc
  end.

Definition cache_after_builds (tc : Toolchain) (c : Configuration)
    (history : list FileSystem) : BuildCache :=
  foldl (rebuild tc c) empty_cache history.

(** The files of the snapshot that a walk has not put into the graph yet,
    and the units of a graph that are not on the stack of the ordering walk:
    the measures that bound the depth of the two walks. *)
Definition unvisited (fs : FileSystem) (st : BuildState) : nat :=
  size (dom fs ∖ dom (graph st)).

Definition off_stack (g : gmap string GraphNode) (stack : list string) : nat :=
  size (dom g ∖ list_to_set stack).

(** ** The application of the repository *)

Module Scenario.

(** Modelled from the spec: the statements of the application's modules.
    The entry module, the logging helper, the stylesheet and the HTML page
    are not among the sources; the documentation quotes the entry module
    ([import './styles/global.scss'], [import foo from './test'],
    [foo('hello world')]) and describes the helper (default export [foo],
    which logs its argument) and the stylesheet.  The statements they use
    are given a small syntax, one statement a line, so that the bundle can be
    run. *)
Inductive Stmt : Type :=
| ImportSideEffect (specifier : string)
| ImportDefault (name specifier : string)
| Call (name argument : string)
| ExportDefaultLogger (name : string).

Fixpoint strip_prefix (p s : string) : option string :=
  match p, s with
  | EmptyString, _ => Some s
  | String a p', String b s' => if Ascii.eqb a b then strip_prefix p' s' else None
  | String _ _, EmptyString => None
  end.

(** The text before and after the first occurrence of [sep]. *)
Fixpoint break_at (sep s : string) : option (string * string) :=
  match strip_prefix sep s with
  | Some rest => Some (EmptyString, rest)
  | None =>
      match s with
      | EmptyString => None
      | String c s' =>
          match break_at sep s' with
          | Some (before, after) => Some (String c before, after)
          | None => None
          end
      end
  end.

Definition enclosed (opening closing s : string) : option string :=
  match strip_prefix opening s with
  | Some r =>
      match break_at closing r with
      | Some (inner, EmptyString) => Some inner
      | _ => None
      end
  | None => None
  end.

Definition parse_stmt (line : string) : option Stmt :=
  match enclosed "import '" "';" line with
  | Some specifier => Some (ImportSideEffect specifier)
  | None =>
      match strip_prefix "import " line with
      | Some r =>
          match break_at " from " r with
          | Some (name, r') =>
              match enclosed "'" "';" r' with
              | Some specifier => Some (ImportDefault name specifier)
              | None => None
              end
          | None => None
          end
      | None =>
          match enclosed "export default function " "(x) { console.log(x); }" line with
          | Some name => Some (ExportDefaultLogger name)
          | None =>
              match break_at "('" line with
              | Some (name, r) =>
                  match break_at "');" r with
                  | Some (argument, EmptyString) => Some (Call name argument)
                  | _ => None
                  end
              | None => None
              end
          end
      end
  end.

Definition is_blank (line : string) : bool := String.eqb line "".

Fixpoint parse_lines (ls : list string) : option (list Stmt) :=
  match ls with
  | [] => Some []
  | l :: rest =>
      if is_blank l then parse_lines rest
      else match parse_stmt l, parse_lines rest with
           | Some s, Some ss => Some (s :: ss)
           | _, _ => None
           end
  end.

Definition parse_module (text : string) : option (list Stmt) := parse_lines (lines text).

Definition imports (ss : list Stmt) : list string :=
  flat_map (fun s => match s with
                     | ImportSideEffect sp | ImportDefault _ sp => [sp]
                     | _ => []
                     end) ss.

Definition style_injector : string := "__injectStyle".

(** Modelled from the spec: the transforms plugged in for the application
    (the loaders are not among the sources).  A script keeps its text and declares
    the specifiers of its imports; a stylesheet whose chain ends in
    style-loader becomes a module that injects the style when it runs, any
    other stylesheet stays style text; markup and assets pass through. *)
Definition scenario_transform (k : SourceKind) (opts : list string) (bytes : string)
    : TransformOutcome :=
  match k with
  | script =>
      match parse_module bytes with
      | Some ss => Transformed {| code := bytes; dependencies := imports ss;
                                  diagnostics := [] |}
      | None => TransformError "syntax error"
      end
  | stylesheet =>
      match delivery_of_loader (List.last opts "") with
      | InjectedAtRuntime =>
          Transformed {| code := style_injector +:+ "('" +:+ String.concat " " (lines bytes)
                                   +:+ "');";
                         dependencies := []; diagnostics := [] |}
      | _ => Transformed {| code := bytes; dependencies := []; diagnostics := [] |}
      end
  | markup | asset =>
      Transformed {| code := bytes; dependencies := []; diagnostics := [] |}
  end.

(** Modelled from the spec: what running a bundle does (no run time is
    among the sources).  A unit that is run records the function it exports
    by default; a call of an imported function is recorded together with
    what the function does (the helper logs its argument). *)
Inductive Event : Type :=
| Invoked (function argument : string)
| ConsoleLog (text : string)
| StyleInjected (css : string)
| ReferenceError (name : string)
| SyntaxError (source : string).

Record Runtime : Type := {
  exports : gmap string string;
  trace : list Event
}.

Definition log (es : list Event) (rt : Runtime) : Runtime :=
  {| exports := exports rt; trace := trace rt ++ es |}.

Definition run_stmt (c : Configuration) (fs : FileSystem) (self : string)
    (s : Stmt) (env : gmap string string * Runtime) : gmap string string * Runtime :=
  let '(locals, rt) := env in
  match s with
  | ImportSideEffect _ => (locals, rt)
  | ImportDefault name specifier =>
      match resolve_with c fs self specifier with
      | Resolved id =>
          match exports rt !! id with
          | Some f => (<[name := f]> locals, rt)
          | None => (locals, log [ReferenceError name] rt)
          end
      | _ => (locals, log [ReferenceError name] rt)
      end
  | Call name argument =>
      if String.eqb name style_injector then (locals, log [StyleInjected argument] rt)
      else match locals !! name with
           | Some f => (locals, log [Invoked f argument; ConsoleLog argument] rt)
           | None => (locals, log [ReferenceError name] rt)
           end
  | ExportDefaultLogger name =>
      (<[name := name]> locals,
       {| exports := <[self := name]> (exports rt); trace := trace rt |})
  end.

(** The bytes of a chunk are run line by line: a comment line that names a
    unit opens that unit (with no local names yet), any other line is a
    statement of the unit that is open. *)
Definition run_line (c : Configuration) (fs : FileSystem)
    (state : string * gmap string string * Runtime) (line : string)
    : string * gmap string string * Runtime :=
  let '(self, locals, rt) := state in
  if is_blank line then state
  else match enclosed "/* " " */" line with
       | Some id => (id, ∅, rt)
       | None =>
           match parse_stmt line with
           | Some s => let '(locals', rt') := run_stmt c fs self s (locals, rt) in
                       (self, locals', rt')
           | None => (self, locals, log [SyntaxError self] rt)
           end
       end.

Definition execute (c : Configuration) (fs : FileSystem) (bytes : string) : list Event :=
  trace (snd (foldl (run_line c fs) ("", ∅, {| exports := ∅; trace := [] |})
                    (lines bytes))).

Definition invocations_of (f : string) (es : list Event) : list string :=
  flat_map (fun e => match e with
                     | Invoked g a => if String.eqb g f then [a] else []
                     | _ => []
                     end) es.

(** The content hash of the scenario: 32-bit FNV-1a over the bytes, written
    as eight hexadecimal digits. *)
Definition fnv1a (bytes : string) : N :=
  fold_left (fun h b => (N.lxor h (Byte.to_N b) * 16777619) mod 2 ^ 32)%N
            (String.list_byte_of_string bytes) 2166136261%N.

Definition hex_digit (n : N) : ascii :=
  match String.get (N.to_nat (n mod 16)) "0123456789abcdef" with
  | Some c => c
  | None => "0"%char
  end.

Definition hex8 (n : N) : string :=
  string_of_list_ascii
    (map (fun i => hex_digit (N.shiftr n (4 * i))) [7; 6; 5; 4; 3; 2; 1; 0]%N).

Definition toolchain : Toolchain :=
  {| transform := scenario_transform;
     digest := fun bytes => hex8 (fnv1a bytes);
     minify := fun bytes => Some bytes;
     script_marker := "<!-- scripts -->";
     style_marker := "<!-- styles -->";
     cache_limit := 16 |}.

(** The same tools with another digest: one that is its own text, and so
    collision-free, and one that gives every text the same value. *)
Definition with_digest (d : string -> string) (tc : Toolchain) : Toolchain :=
  {| transform := transform tc; digest := d; minify := minify tc;
     script_marker := script_marker tc; style_marker := style_marker tc;
     cache_limit := cache_limit tc |}.

Definition exact_toolchain : Toolchain := with_digest (fun bytes => bytes) toolchain.

Definition colliding_toolchain : Toolchain := with_digest (fun _ => "00000000") toolchain.

(** Modelled from the spec: the four files of the application, as the
    documentation describes them (they are not among the sources). *)
Definition index_ts : string :=
  unlines ["import './styles/global.scss';";
           "import foo from './test';";
           "foo('hello world');"].

Definition test_js : string :=
  unlines ["export default function foo(x) { console.log(x); }"].

Definition global_scss : string :=
  unlines ["body { margin: 0; padding: 0; background-color: black; color: white; }"].

Definition index_html : string :=
  unlines ["<!doctype html>"; "<html>"; "<head>"; "<!-- styles -->"; "</head>";
           "<body>"; "<div id='root'></div>"; "<!-- scripts -->"; "</body>"; "</html>"].

Definition file_system : FileSystem :=
  list_to_map [("src/index.ts", index_ts); ("src/test.js", test_js);
               ("src/styles/global.scss", global_scss);
               ("public/index.html", index_html)].

Definition configuration : Configuration := module_exports "/repo".

(** The build of the application from an empty cache: what it emits and the
    cache it leaves behind. *)
Definition built : Result (AssetManifest * BuildCache) :=
  build toolchain configuration file_system empty_cache.

Definition manifest : AssetManifest :=
  match built with
  | Ok (m, _) => m
  | Err _ => {| chunks := []; files := []; warnings := [] |}
  end.

Definition cache_after : BuildCache :=
  match built with
  | Ok (_, bc) => bc
  | Err _ => empty_cache
  end.

Definition shell : Asset :=
  match files manifest with
  | a :: _ => a
  | [] => {| file_name := ""; contents := "" |}
  end.

Definition script_chunk : OutputChunk :=
  match chunks manifest with
  | ch :: _ => ch
  | [] => {| logical_name := ""; extension := ""; members := [];
             final_bytes := ""; content_hash := "" |}
  end.

(** The application after an edit of its entry module: the call has another
    argument. *)
Definition edited_file_system : FileSystem :=
  <["src/index.ts" := unlines ["import './styles/global.scss';";
                               "import foo from './test';";
                               "foo('changed');"]]> file_system.

(** The caches that a first build of the application leaves behind, under
    the colliding digest and under the exact one. *)
Definition stale_cache : BuildCache :=
  cache_after_builds colliding_toolchain configuration [file_system].

Definition exact_cache : BuildCache :=
  cache_after_builds exact_toolchain configuration [file_system].

(** The number of transforms that have run once a build is over. *)
Definition misses_after (r : Result (AssetManifest * BuildCache)) : option nat :=
  match r with
  | Ok (_, bc) => Some (misses bc)
  | Err _ => None
  end.

(** A snapshot in which the helper exists with two of the resolvable
    extensions, next to a directory with an index file. *)
Definition crowded_file_system : FileSystem :=
  list_to_map [("src/index.ts", index_ts); ("src/test.js", test_js);
               ("src/test.ts", test_js); ("src/lib/index.js", test_js)].

End Scenario.

(** ** Shapes of paths

    The vocabulary in which the reach of the three rules is stated: a path
    that ends in a given suffix, a path in which a text occurs somewhere, and
    a path whose ending reads as a given upper-case text once its letters
    are put in upper case. *)

Definition ends_with (suffix s : string) : Prop :=
  exists stem, s = stem +:+ suffix.

Definition occurs_in (needle s : string) : Prop :=
  exists pre post, s = pre +:+ needle +:+ post.

Fixpoint upcase (s : string) : string :=
  match s with
  | EmptyString => EmptyString
  | String c s' => String (to_upper c) (upcase s')
  end.

Definition ends_like (suffix s : string) : Prop :=
  exists stem ext, s = stem +:+ ext /\ upcase ext = suffix.

(** The resource the entry point denotes when the bundler runs in the
    directory [context]: the entry of the configuration, which is written
    relative to that directory ([./src/index.ts]), placed under it. *)
Definition without_dot_slash (specifier : string) : string :=
  match specifier with
  | String "." (String "/" rest) => rest
  | _ => specifier
  end.

Definition entry_resource (context : string) (c : Configuration) : string :=
  path_resolve context (without_dot_slash (entry c)).

(** [absent c s]: the character [c] does not occur in [s]. *)
Fixpoint absent (c : ascii) (s : string) : bool :=
  match s with
  | EmptyString => true
  | String x s' => negb (Ascii.eqb x c) && absent c s'
  end.

(** * Facts about the matcher *)

#[local] Arguments String.append !s1 s2 : simpl nomatch.
#[local] Arguments char_matches : simpl never.

Lemma to_upper_dot c : to_upper c = "."%char -> c = "."%char.
Proof.
  destruct c as [[] [] [] [] [] [] [] []]; vm_compute; congruence.
Qed.

Lemma char_matches_true ic x c :
  char_matches ic x c = true -> canonicalize ic c = canonicalize ic x.
Proof. unfold char_matches. intros H. apply Ascii.eqb_eq in H. congruence. Qed.

Section SearchFacts.
Variables (ic an : bool) (items : list item).

Lemma search_here s :
  match_here ic an items s = true -> search ic an items s = true.
Proof. intros H. destruct s; simpl in *; rewrite H; reflexivity. Qed.

Lemma search_skip pre s :
  search ic an items s = true -> search ic an items (pre +:+ s) = true.
Proof.
  intros H. induction pre as [|c pre IH]; simpl; [exact H|].
  rewrite IH. apply orb_true_r.
Qed.

Lemma search_inv s :
  search ic an items s = true ->
  exists pre suf, s = pre +:+ suf /\ match_here ic an items suf = true.
Proof.
  induction s as [|c s IH]; simpl; intros H.
  - exists EmptyString, EmptyString. split; [reflexivity|].
    now rewrite orb_false_r in H.
  - apply orb_true_iff in H as [H|H].
    + exists EmptyString, (String c s). now split.
    + destruct (IH H) as (pre & suf & -> & Hm).
      exists (String c pre), suf. now split.
Qed.

Lemma search_none pre s :
  (forall t, match_here ic an items (t +:+ s) = false) ->
  search ic an items s = false ->
  search ic an items (pre +:+ s) = false.
Proof.
  intros Hh Hs. induction pre as [|c pre IH]; simpl; [exact Hs|].
  rewrite IH, orb_false_r. apply (Hh (String c pre)).
Qed.
End SearchFacts.

(** Case analysis on character tests: every test is split, the ones that
    hold become equations between canonical forms, and a clash of two
    constants closes the goal. *)
Ltac split_tests :=
  repeat match goal with
         | |- context [char_matches ?ic ?x ?c] =>
             let E := fresh "E" in
             destruct (char_matches ic x c) eqn:E; simpl;
             [apply char_matches_true in E|clear E]
         end.

Ltac clash :=
  try reflexivity; try discriminate;
  exfalso;
  unfold canonicalize in *; cbn iota in *;
  repeat match goal with
         | H : _ \/ _ |- _ => destruct H
         end;
  subst;
  repeat match goal with
         | H : context [to_upper ?c] |- _ =>
             is_var c; generalize dependent (to_upper c); intros
         end;
  subst;
  repeat match goal with
         | H : @eq ascii _ _ |- _ => revert H
         end;
  vm_compute; congruence.

Lemma split_on_head sep s :
  exists piece rest post, split_on sep s = piece :: rest /\ s = piece +:+ post.
Proof.
  induction s as [|c s (piece & rest & post & E & Hs)]; simpl.
  - exists EmptyString, [], EmptyString. now split.
  - destruct (Ascii.eqb c sep).
    + exists EmptyString, (split_on sep s), (String c s). now split.
    + rewrite E. exists (String c piece), rest, post. split; [reflexivity|].
      simpl. now rewrite <- Hs.
Qed.

Lemma split_on_infix sep s piece :
  In piece (split_on sep s) -> exists pre post, s = pre +:+ piece +:+ post.
Proof.
  revert piece. induction s as [|c s IH]; simpl; intros piece Hin.
  - destruct Hin as [<-|[]]. now exists EmptyString, EmptyString.
  - destruct (Ascii.eqb c sep).
    + destruct Hin as [<-|Hin].
      * now exists EmptyString, (String c s).
      * destruct (IH _ Hin) as (pre & post & ->).
        now exists (String c pre), post.
    + destruct (split_on_head sep s) as (p0 & rest & post0 & E & Hs).
      rewrite E in Hin, IH. destruct Hin as [<-|Hin].
      * exists EmptyString, post0. simpl. now rewrite <- Hs.
      * destruct (IH piece (or_intror Hin)) as (pre & post & ->).
        now exists (String c pre), post.
Qed.

Lemma in_removelast {A} (x : A) l : In x (removelast l) -> In x l.
Proof.
  induction l as [|a [|b l] IH]; simpl; intros H; [easy|easy|].
  destruct H as [H|H]; [now left|right; now apply IH].
Qed.

Lemma under_node_modules_infix p :
  under_node_modules p = true ->
  exists pre post, p = pre +:+ "node_modules" +:+ post.
Proof.
  unfold under_node_modules, directories. intros H.
  apply existsb_exists in H as (seg & Hin & Heq).
  apply String.eqb_eq in Heq. subst seg.
  apply in_removelast in Hin. now apply (split_on_infix "/").
Qed.

Lemma node_modules_excluded p :
  under_node_modules p = true -> regex_test re_node_modules p = true.
Proof.
  intros H. destruct (under_node_modules_infix p H) as (pre & post & ->).
  unfold regex_test. simpl re_items. apply search_skip, search_here.
  reflexivity.
Qed.

(** ** The three test patterns are disjoint *)

Lemma ts_rejects_tsx stem : regex_test re_ts (stem +:+ ".tsx") = false.
Proof.
  unfold regex_test; simpl. apply search_none; [|reflexivity].
  intros [|a [|b [|c [|d t]]]]; simpl; split_tests; clash.
Qed.

Lemma css_rejects_tsx stem : regex_test re_css (stem +:+ ".tsx") = false.
Proof.
  unfold regex_test; simpl. apply search_none; [|reflexivity].
  intros [|a [|b [|c [|d [|e t]]]]]; simpl; split_tests; clash.
Qed.

Lemma sass_rejects_tsx stem : regex_test re_sass (stem +:+ ".tsx") = false.
Proof.
  unfold regex_test; simpl. apply search_none; [|reflexivity].
  intros [|a [|b [|c [|d [|e [|f t]]]]]]; simpl; split_tests; clash.
Qed.

Ltac split_match :=
  repeat match goal with
         | H : false = true |- _ => discriminate H
         | H : true = true |- _ => clear H
         | H : _ && _ = true |- _ => apply andb_true_iff in H as [? ?]
         | H : _ || _ = true |- _ => apply orb_true_iff in H as [?|?]
         | H : char_matches _ _ _ = true |- _ => apply char_matches_true in H
         end.

(** A path accepted by [/\.s[ac]ss$/i] ends in five characters that read
    [.sass] or [.scss] up to case. *)
Lemma sass_suffix p :
  regex_test re_sass p = true ->
  exists pre c1 c2 c3 c4 c5,
    p = pre +:+ String c1 (String c2 (String c3 (String c4 (String c5 "")))) /\
    c1 = "."%char /\ to_upper c2 = "S"%char /\
    (to_upper c3 = "A"%char \/ to_upper c3 = "C"%char) /\
    to_upper c4 = "S"%char /\ to_upper c5 = "S"%char.
Proof.
  intros H. apply search_inv in H as (pre & suf & -> & Hm). simpl in Hm.
  destruct suf as [|c1 [|c2 [|c3 [|c4 [|c5 [|c6 suf]]]]]]; simpl in Hm;
    split_match.
  all: exists pre, c1, c2, c3, c4, c5; split; [reflexivity|].
  all: unfold canonicalize in *.
  all: repeat split; auto using to_upper_dot.
Qed.

(** A path accepted by [/\.css$/i] ends in four characters that read [.css]
    up to case. *)
Lemma css_suffix p :
  regex_test re_css p = true ->
  exists pre c1 c2 c3 c4,
    p = pre +:+ String c1 (String c2 (String c3 (String c4 ""))) /\
    c1 = "."%char /\ to_upper c2 = "C"%char /\
    to_upper c3 = "S"%char /\ to_upper c4 = "S"%char.
Proof.
  intros H. apply search_inv in H as (pre & suf & -> & Hm). simpl in Hm.
  destruct suf as [|c1 [|c2 [|c3 [|c4 [|c5 suf]]]]]; simpl in Hm;
    split_match.
  exists pre, c1, c2, c3, c4; split; [reflexivity|].
  unfold canonicalize in *.
  repeat split; auto using to_upper_dot.
Qed.

Lemma sass_not_ts p : regex_test re_sass p = true -> regex_test re_ts p = false.
Proof.
  intros H.
  destruct (sass_suffix p H) as (pre & c1 & c2 & c3 & c4 & c5 & -> & -> & ? & ? & ? & ?).
  unfold regex_test; simpl. apply search_none.
  - intros [|a [|b [|c [|d t]]]]; simpl; split_tests; clash.
  - simpl; split_tests; clash.
Qed.

Lemma sass_not_css p : regex_test re_sass p = true -> regex_test re_css p = false.
Proof.
  intros H.
  destruct (sass_suffix p H) as (pre & c1 & c2 & c3 & c4 & c5 & -> & -> & ? & ? & ? & ?).
  unfold regex_test; simpl. apply search_none.
  - intros [|a [|b [|c [|d [|e t]]]]]; simpl; split_tests; clash.
  - simpl; split_tests; clash.
Qed.

Lemma css_not_ts p : regex_test re_css p = true -> regex_test re_ts p = false.
Proof.
  intros H.
  destruct (css_suffix p H) as (pre & c1 & c2 & c3 & c4 & -> & -> & ? & ? & ?).
  unfold regex_test; simpl. apply search_none.
  - intros [|a [|b [|c [|d t]]]]; simpl; split_tests; clash.
  - simpl; split_tests; clash.
Qed.

Lemma css_not_sass p : regex_test re_css p = true -> regex_test re_sass p = false.
Proof.
  intros H.
  destruct (regex_test re_sass p) eqn:E; [|reflexivity].
  apply sass_not_css in E. congruence.
Qed.

(** * The rules of the configuration *)

(** C8: a file whose path lies under a [node_modules] directory is never
    handed to the TypeScript rule: the rule does not apply to it and
    [ts-loader] is not among its loaders, whatever the rule's [.ts] test
    pattern says about the file name. *)
Theorem ts_rule_skips_node_modules (dirname p : string) :
  under_node_modules p = true ->
  rule_applies ts_rule p = false /\
  ~ In "ts-loader" (loaders_for (module_exports dirname) p).
Proof.
  intros H. apply node_modules_excluded in H.
  assert (Hts : rule_applies ts_rule p = false).
  { unfold rule_applies, excluded; simpl. rewrite H. apply andb_false_r. }
  split; [exact Hts|].
  unfold loaders_for, matching_rules; simpl. rewrite Hts.
  destruct (rule_applies css_rule p), (rule_applies sass_rule p); simpl;
    intros Hin; repeat destruct Hin as [Hin|Hin]; try discriminate Hin;
    exact Hin.
Qed.

(** At a TypeScript file of an installed package the test pattern matches,
    and the rule is still skipped. *)
Lemma ts_rule_skips_node_modules_witness :
  regex_test (test ts_rule) "/repo/node_modules/pkg/index.ts" = true /\
  rule_applies ts_rule "/repo/node_modules/pkg/index.ts" = false /\
  ~ In "ts-loader"
      (loaders_for (module_exports "/repo") "/repo/node_modules/pkg/index.ts").
Proof.
  split; [reflexivity|].
  apply (ts_rule_skips_node_modules "/repo" "/repo/node_modules/pkg/index.ts").
  reflexivity.
Defined.

(** C9: a file whose name matches [/\.s[ac]ss$/i] is handled by the Sass
    rule alone; its loaders run in the order sass-loader, css-loader,
    style-loader (the [use] array read from right to left), so the compiled
    style is injected at run time and no CSS file is written for it. *)
Theorem sass_chain_order (dirname p : string) :
  regex_test (test sass_rule) p = true ->
  matching_rules (module_exports dirname) p = [sass_rule] /\
  application_order (module_exports dirname) p
    = ["sass-loader"; "css-loader"; "style-loader"] /\
  style_delivery (module_exports dirname) p = InjectedAtRuntime.
Proof.
  simpl. intros H.
  assert (Hm : matching_rules (module_exports dirname) p = [sass_rule]).
  { unfold matching_rules, rule_applies, excluded; simpl.
    rewrite (sass_not_ts p H), (sass_not_css p H), H. reflexivity. }
  unfold style_delivery, application_order, loaders_for.
  rewrite Hm. repeat split.
Qed.

Lemma sass_chain_order_witness :
  matching_rules (module_exports "/repo") "/repo/src/styles/global.scss"
    = [sass_rule] /\
  application_order (module_exports "/repo") "/repo/src/styles/global.scss"
    = ["sass-loader"; "css-loader"; "style-loader"] /\
  style_delivery (module_exports "/repo") "/repo/src/styles/global.scss"
    = InjectedAtRuntime.
Proof.
  apply (sass_chain_order "/repo" "/repo/src/styles/global.scss").
  reflexivity.
Defined.

(** C10: [.tsx] is an extension candidate of [resolve.extensions], yet no
    rule applies to a file with that extension: [/\.ts?$/] rejects the
    suffix (it accepts only names ending in [.t] or [.ts]), and so do the
    two style patterns; such a file gets no loader at all. *)
Theorem tsx_has_no_rule (dirname stem : string) :
  In ".tsx" (extensions (resolve (module_exports dirname))) /\
  regex_test (test ts_rule) (stem +:+ ".tsx") = false /\
  matching_rules (module_exports dirname) (stem +:+ ".tsx") = [] /\
  loaders_for (module_exports dirname) (stem +:+ ".tsx") = [].
Proof.
  split; [now left|]. split; [apply ts_rejects_tsx|].
  assert (Hm : matching_rules (module_exports dirname) (stem +:+ ".tsx") = []).
  { unfold matching_rules, rule_applies; simpl.
    now rewrite ts_rejects_tsx, css_rejects_tsx, sass_rejects_tsx. }
  split; [exact Hm|]. unfold loaders_for. now rewrite Hm.
Qed.

(** C4, as the specification states it, fails on this configuration: run in
    production mode, the project's stylesheet is still injected at run time
    and no separate CSS file is emitted. *)
Lemma production_styles_not_separate :
  regex_test (test sass_rule) "/repo/src/styles/global.scss" = true /\
  style_delivery (with_mode production (module_exports "/repo"))
    "/repo/src/styles/global.scss" = InjectedAtRuntime /\
  style_delivery (with_mode production (module_exports "/repo"))
    "/repo/src/styles/global.scss" <> SeparateFile.
Proof. repeat split. discriminate. Qed.

(** C4, amended: the configuration fixes the mode to development, and in
    either mode a file matched by one of the two style rules ends its loader
    chain with style-loader, so its style is injected at run time and never
    emitted as a separate file. *)
Theorem styles_injected_in_every_mode (dirname p : string) (m : Mode) :
  regex_test (test css_rule) p = true \/ regex_test (test sass_rule) p = true ->
  mode (module_exports dirname) = development /\
  List.last (application_order (with_mode m (module_exports dirname)) p) ""
    = "style-loader" /\
  style_delivery (with_mode m (module_exports dirname)) p = InjectedAtRuntime.
Proof.
  simpl. intros H. split; [reflexivity|].
  assert (Hm : matching_rules (with_mode m (module_exports dirname)) p = [css_rule]
            \/ matching_rules (with_mode m (module_exports dirname)) p = [sass_rule]).
  { unfold matching_rules, rule_applies, excluded; simpl.
    destruct H as [H|H].
    - left. now rewrite (css_not_ts p H), (css_not_sass p H), H.
    - right. now rewrite (sass_not_ts p H), (sass_not_css p H), H. }
  unfold style_delivery, application_order, loaders_for.
  destruct Hm as [-> | ->]; split; reflexivity.
Qed.

Lemma styles_injected_in_every_mode_witness :
  mode (module_exports "/repo") = development /\
  List.last (application_order (with_mode production (module_exports "/repo"))
               "/repo/src/app.css") "" = "style-loader" /\
  style_delivery (with_mode production (module_exports "/repo"))
    "/repo/src/app.css" = InjectedAtRuntime.
Proof.
  apply (styles_injected_in_every_mode "/repo" "/repo/src/app.css" production).
  left. reflexivity.
Defined.

(** * The resolver *)

Section FindFacts.
Context {A : Type} (f : A -> bool).

Lemma find_first before x after :
  (forall y, In y before -> f y = false) -> f x = true ->
  List.find f (before ++ x :: after) = Some x.
Proof.
  intros Hb Hx. induction before as [|y before IH]; simpl.
  - now rewrite Hx.
  - rewrite (Hb y (or_introl eq_refl)). apply IH.
    intros z Hz. apply Hb. now right.
Qed.

Lemma find_nowhere l : (forall y, In y l -> f y = false) -> List.find f l = None.
Proof.
  induction l as [|y l IH]; simpl; intros H; [reflexivity|].
  rewrite (H y (or_introl eq_refl)). apply IH. intros z Hz. apply H. now right.
Qed.

Lemma find_agree (g : A -> bool) l :
  (forall y, In y l -> g y = f y) -> List.find g l = List.find f l.
Proof.
  induction l as [|y l IH]; simpl; intros H; [reflexivity|].
  rewrite (H y (or_introl eq_refl)). destruct (f y); [reflexivity|].
  apply IH. intros z Hz. apply H. now right.
Qed.
End FindFacts.

Lemma candidates_split (exts before : list string) ext after (g : string -> string) :
  exts = before ++ ext :: after ->
  map g exts = map g before ++ g ext :: map g after.
Proof. intros ->. now rewrite map_app. Qed.

(** C6: the resolver looks at the exact path first, then at the extension
    candidates in the order of the configured list ([.tsx], [.ts], [.js] in
    this configuration), then at the directory index candidates in the same
    order, and only then answers with an external reference (or, for a
    specifier that names a file, with a resolution error); its answer
    depends on the file system snapshot through these candidate paths
    alone. *)
Theorem resolution_order (c : Configuration) (fs : FileSystem)
    (requester specifier : string) :
  let exts := extensions (resolve c) in
  let base := locate requester specifier in
  (forall dirname, extensions (resolve (module_exports dirname)) = [".tsx"; ".ts"; ".js"]) /\
  (is_file fs base = true ->
   resolve_with c fs requester specifier = Resolved base) /\
  (forall before ext after,
     is_file fs base = false ->
     exts = before ++ ext :: after ->
     (forall e, In e before -> is_file fs (base +:+ e) = false) ->
     is_file fs (base +:+ ext) = true ->
     resolve_with c fs requester specifier = Resolved (base +:+ ext)) /\
  (forall before ext after,
     is_file fs base = false ->
     (forall e, In e exts -> is_file fs (base +:+ e) = false) ->
     exts = before ++ ext :: after ->
     (forall e, In e before -> is_file fs (base +:+ "/index" +:+ e) = false) ->
     is_file fs (base +:+ "/index" +:+ ext) = true ->
     resolve_with c fs requester specifier = Resolved (base +:+ "/index" +:+ ext)) /\
  ((forall p, In p (candidates exts requester specifier) -> is_file fs p = false) ->
   resolve_with c fs requester specifier =
     if is_relative specifier || is_absolute specifier
     then ResolutionError specifier requester "no matching file"
     else External specifier) /\
  (forall fs' : FileSystem,
     (forall p, In p (candidates exts requester specifier) -> is_file fs' p = is_file fs p) ->
     resolve_with c fs' requester specifier = resolve_with c fs requester specifier).
Proof.
  intros exts base. unfold resolve_with, resolve_import. fold exts base.
  split; [reflexivity|]. split; [|split; [|split; [|split]]].
  - intros ->. reflexivity.
  - intros before ext after -> E Hb Hx.
    unfold extension_candidates.
    rewrite (candidates_split exts before ext after _ E).
    rewrite (find_first (is_file fs)); [reflexivity| |exact Hx].
    intros y Hy. apply in_map_iff in Hy as (e & <- & He). now apply Hb.
  - intros before ext after -> Hn E Hb Hx.
    rewrite (find_nowhere (is_file fs) (extension_candidates exts base)).
    2:{ intros y Hy. apply in_map_iff in Hy as (e & <- & He). now apply Hn. }
    unfold index_candidates.
    rewrite (candidates_split exts before ext after _ E).
    rewrite (find_first (is_file fs)); [reflexivity| |exact Hx].
    intros y Hy. apply in_map_iff in Hy as (e & <- & He). now apply Hb.
  - intros Hn. unfold candidates in Hn. fold base in Hn.
    rewrite (Hn base (or_introl eq_refl)).
    rewrite !(find_nowhere (is_file fs)); [reflexivity| |].
    + intros y Hy. apply Hn. right. apply in_or_app. now right.
    + intros y Hy. apply Hn. right. apply in_or_app. now left.
  - intros fs' Hs. unfold candidates in Hs. fold base in Hs.
    rewrite (Hs base (or_introl eq_refl)).
    rewrite !(find_agree (is_file fs) (is_file fs')); [reflexivity| |].
    + intros y Hy. apply Hs. right. apply in_or_app. now right.
    + intros y Hy. apply Hs. right. apply in_or_app. now left.
Qed.

(** * Folding a fallible step over the edges of a unit *)

Section FoldFacts.
Context {S : Type} (step : string -> S -> Result S).

Lemma foldl_stays_err e edges :
  foldl (fun acc dep => s ← acc; step dep s) (Err e) edges = Err e.
Proof. induction edges as [|d edges IH]; simpl; [reflexivity|exact IH]. Qed.

Lemma foldl_fuel (P : S -> Prop) edges :
  (forall d s, P s -> step d s <> Err OutOfFuel /\
                      forall s', step d s = Ok s' -> P s') ->
  forall s0, P s0 ->
    foldl (fun acc dep => s ← acc; step dep s) (Ok s0) edges <> Err OutOfFuel.
Proof.
  intros Hstep. induction edges as [|d edges IH]; simpl; intros s0 H0; [easy|].
  destruct (Hstep d s0 H0) as [Hne Hok].
  destruct (step d s0) as [s1|e].
  - apply IH. now apply Hok.
  - rewrite foldl_stays_err. congruence.
Qed.
End FoldFacts.

(** * The cache *)

Lemma lookup_remove_ne k k' l :
  k' <> k -> lookup_entry k' (remove_entry k l) = lookup_entry k' l.
Proof.
  intros Hne. induction l as [|[k0 e] l IH]; simpl; [reflexivity|].
  destruct (decide (k0 = k)) as [->|Hk].
  - rewrite (bool_decide_eq_true_2 _ eq_refl). simpl.
    rewrite bool_decide_eq_false_2 by congruence. exact IH.
  - rewrite (bool_decide_eq_false_2 _ Hk). simpl. now rewrite IH.
Qed.

Lemma lookup_take k n : forall l e,
  lookup_entry k (take n l) = Some e -> lookup_entry k l = Some e.
Proof.
  induction n as [|n IH]; intros [|[k0 e0] l] e; simpl; try discriminate.
  destruct (bool_decide (k0 = k)); [easy|]. apply IH.
Qed.

Section CacheFacts.
Variables (tc : Toolchain) (c : Configuration).

Lemma empty_cache_valid : cache_valid tc c empty_cache.
Proof. intros id bytes r H. discriminate H. Qed.

Lemma cache_get_touch k k' bc :
  cache_get tc k' (touch k bc) = cache_get tc k' bc.
Proof.
  unfold touch, cache_get. destruct (lookup_entry k (entries bc)) as [e|] eqn:E; [|reflexivity].
  simpl. destruct (decide (k = k')) as [<-|Hne].
  - rewrite (bool_decide_eq_true_2 _ eq_refl). now rewrite E.
  - rewrite (bool_decide_eq_false_2 _ Hne). rewrite lookup_remove_ne by congruence.
    reflexivity.
Qed.

Lemma cache_get_put k k' r r' bc :
  cache_get tc k' (cache_put tc k r bc) = Some r' ->
  (k' = k /\ r' = r) \/ (k' <> k /\ cache_get tc k' bc = Some r').
Proof.
  unfold cache_put, cache_get. simpl.
  destruct (lookup_entry k' (take _ _)) as [e|] eqn:E; [|discriminate].
  apply lookup_take in E. simpl in E. intros H.
  destruct (decide (k = k')) as [<-|Hne].
  - left. rewrite (bool_decide_eq_true_2 _ eq_refl) in E. injection E as <-.
    simpl in H. destruct (intact tc _); [|discriminate]. injection H as <-. now split.
  - right. rewrite (bool_decide_eq_false_2 _ Hne) in E.
    rewrite lookup_remove_ne in E by congruence. rewrite E. split; [congruence|exact H].
Qed.

(** A lookup that is served is served with what a fresh transform gives,
    and the cache stays valid: a stored result sits under the key of the
    very bytes it was made from, and no other bytes have that key. *)
Lemma cached_transform_fresh id bytes bc :
  collision_free tc -> cache_valid tc c bc ->
  fst (cached_transform tc c id bytes bc)
    = transform tc (kind_of c id) (transform_options c id) bytes /\
  cache_valid tc c (snd (cached_transform tc c id bytes bc)).
Proof.
  intros Hfree Hv. unfold cached_transform.
  destruct (cache_get tc (cache_key tc c id bytes) bc) as [r|] eqn:Hget.
  - split; [symmetry; now apply Hv|]. simpl.
    intros id' bytes' r' H. rewrite cache_get_touch in H. now apply Hv.
  - destruct (transform tc (kind_of c id) (transform_options c id) bytes)
      as [r|reason] eqn:Ht; simpl; (split; [reflexivity|]).
    + intros id' bytes' r' H. apply cache_get_put in H as [[Hk ->]|[_ H]].
      * unfold cache_key in Hk. injection Hk as -> Hd _.
        apply Hfree in Hd as ->. exact Ht.
      * now apply Hv.
    + exact Hv.
Qed.

Hypothesis digest_free : collision_free tc.
Variable fs : FileSystem.

Lemma foldl_agree (step : string -> BuildState -> Result BuildState) edges :
  (forall dep s1 s2, agree tc c (Ok s1) (Ok s2) -> agree tc c (step dep s1) (step dep s2)) ->
  forall acc1 acc2,
    agree tc c acc1 acc2 ->
    agree tc c (foldl (fun acc dep => st' ← acc; step dep st') acc1 edges)
               (foldl (fun acc dep => st' ← acc; step dep st') acc2 edges).
Proof.
  intros Hstep. induction edges as [|d edges IH]; simpl; intros acc1 acc2 H; [exact H|].
  apply IH. destruct acc1 as [s1|e1], acc2 as [s2|e2]; simpl in *; try easy.
  now apply Hstep.
Qed.

Lemma discover_agree fuel : forall id st1 st2,
  agree tc c (Ok st1) (Ok st2) ->
  agree tc c (discover tc c fs fuel id st1) (discover tc c fs fuel id st2).
Proof.
  induction fuel as [|fuel IH]; intros id st1 st2 (Hg & H1 & H2); simpl; [reflexivity|].
  rewrite <- Hg. destruct (graph st1 !! id) as [n|]; [now repeat split|].
  destruct (fs !! id) as [bytes|] eqn:Hf; [|reflexivity].
  destruct (cached_transform_fresh id bytes (cache st1) digest_free H1) as [E1 S1].
  destruct (cached_transform_fresh id bytes (cache st2) digest_free H2) as [E2 S2].
  destruct (cached_transform tc c id bytes (cache st1)) as [o1 b1].
  destruct (cached_transform tc c id bytes (cache st2)) as [o2 b2].
  simpl in *. rewrite E1, E2.
  destruct (transform tc (kind_of c id) (transform_options c id) bytes) as [r|reason];
    [|reflexivity].
  destruct (resolve_all c fs id (dependencies r)) as [edges|e]; simpl; [|reflexivity].
  apply (foldl_agree (discover tc c fs fuel)); [intros; now apply IH|].
  simpl. now repeat split.
Qed.

(** Two builds of one snapshot from valid caches emit the same, and leave a
    valid cache behind. *)
Lemma build_agree bc1 bc2 :
  cache_valid tc c bc1 -> cache_valid tc c bc2 ->
  outcome (build tc c fs bc1) = outcome (build tc c fs bc2) /\
  (forall m bc, build tc c fs bc1 = Ok (m, bc) -> cache_valid tc c bc).
Proof.
  intros H1 H2. unfold build.
  destruct (resolve_with c fs "" (entry c)) as [e|s|s from reason]; [|easy|easy].
  pose proof (discover_agree (S (size fs)) e
                {| graph := ∅; cache := bc1 |} {| graph := ∅; cache := bc2 |}) as Ha.
  destruct (discover tc c fs (S (size fs)) e {| graph := ∅; cache := bc1 |}) as [s1|e1];
    destruct (discover tc c fs (S (size fs)) e {| graph := ∅; cache := bc2 |}) as [s2|e2];
    simpl in Ha |- *.
  - destruct Ha as (Hg & S1 & S2); [now repeat split|]. rewrite <- Hg.
    destruct (topologicalOrder (graph s1) e) as [order|err]; simpl; [|easy].
    destruct (emit tc c fs (graph s1) order) as [m|err]; simpl; [|easy].
    split; [reflexivity|]. intros m' bc' E. now injection E as <- <-.
  - exfalso. now apply Ha.
  - exfalso. now apply Ha.
  - rewrite Ha by now repeat split. easy.
Qed.
End CacheFacts.

(** Whatever builds have gone before, over whatever snapshots, the cache
    they leave behind is valid. *)
Lemma history_valid tc c :
  collision_free tc -> forall history, cache_valid tc c (cache_after_builds tc c history).
Proof.
  intros Hfree history. unfold cache_after_builds.
  assert (H : forall bc, cache_valid tc c bc ->
                         cache_valid tc c (foldl (rebuild tc c) bc history)).
  { induction history as [|fs history IH]; simpl; intros bc Hv; [exact Hv|].
    apply IH. unfold rebuild.
    destruct (build tc c fs bc) as [[m bc']|e] eqn:E; [|exact Hv].
    exact (proj2 (build_agree tc c Hfree fs bc bc Hv Hv) m bc' E). }
  apply H, empty_cache_valid.
Qed.

(** ** The size limit *)

Lemma remove_entry_length k l : List.length (remove_entry k l) <= List.length l.
Proof.
  induction l as [|[k0 e] l IH]; simpl; [lia|].
  destruct (negb (bool_decide (k0 = k))); simpl; lia.
Qed.

Lemma remove_entry_found k l e :
  lookup_entry k l = Some e -> List.length (remove_entry k l) < List.length l.
Proof.
  induction l as [|[k0 e0] l IH]; simpl; [discriminate|].
  destruct (bool_decide (k0 = k)); simpl.
  - intros _. pose proof (remove_entry_length k l). lia.
  - intros H. apply IH in H. lia.
Qed.

Lemma cached_transform_bounded tc c id bytes bc :
  List.length (entries bc) <= cache_limit tc ->
  List.length (entries (snd (cached_transform tc c id bytes bc))) <= cache_limit tc.
Proof.
  intros H. unfold cached_transform.
  destruct (cache_get tc (cache_key tc c id bytes) bc) as [r|].
  - simpl. unfold touch. simpl.
    destruct (lookup_entry (cache_key tc c id bytes) (entries bc)) as [e|] eqn:E;
      simpl; [|exact H].
    apply remove_entry_found in E. lia.
  - destruct (transform tc (kind_of c id) (transform_options c id) bytes) as [r|reason];
      simpl; [|exact H].
    rewrite length_take. lia.
Qed.

Lemma discover_bounded tc c fs fuel : forall id st st',
  List.length (entries (cache st)) <= cache_limit tc ->
  discover tc c fs fuel id st = Ok st' ->
  List.length (entries (cache st')) <= cache_limit tc.
Proof.
  induction fuel as [|fuel IH]; intros id st st' Hb; simpl; [easy|].
  destruct (graph st !! id) as [n|]; [now intros [= <-]|].
  destruct (fs !! id) as [bytes|]; [|easy].
  pose proof (cached_transform_bounded tc c id bytes (cache st) Hb) as Hc.
  destruct (cached_transform tc c id bytes (cache st)) as [o b].
  destruct o as [r|reason]; [|easy].
  destruct (resolve_all c fs id (dependencies r)) as [edges|e]; simpl; [|easy].
  simpl in Hc.
  generalize {| graph := <[id:={| node_result := r; node_edges := edges |}]> (graph st);
                cache := b |}, (Hc : List.length (entries (cache
                  {| graph := <[id:={| node_result := r; node_edges := edges |}]> (graph st);
                     cache := b |})) <= cache_limit tc).
  induction edges as [|d edges IHe]; simpl; intros s0 H0 H.
  - now injection H as <-.
  - destruct (discover tc c fs fuel d s0) as [s1|e] eqn:E.
    + apply (IHe s1); [|exact H]. now apply (IH d s0).
    + now rewrite foldl_stays_err in H.
Qed.

(** The cache that a history of builds leaves behind never holds more
    entries than the size limit allows. *)
Lemma history_bounded tc c history :
  List.length (entries (cache_after_builds tc c history)) <= cache_limit tc.
Proof.
  unfold cache_after_builds.
  assert (H : forall bc, List.length (entries bc) <= cache_limit tc ->
                         List.length (entries (foldl (rebuild tc c) bc history)) <= cache_limit tc).
  { induction history as [|fs history IH]; simpl; intros bc Hb; [exact Hb|].
    apply IH. unfold rebuild, build.
    destruct (resolve_with c fs "" (entry c)) as [e|s|s from reason]; [|easy|easy].
    destruct (discover tc c fs (S (size fs)) e {| graph := ∅; cache := bc |})
      as [s1|e1] eqn:E; [|easy].
    cbn [mbind result_bind].
    destruct (topologicalOrder (graph s1) e) as [order|err]; [|easy].
    cbn [mbind result_bind].
    destruct (emit tc c fs (graph s1) order) as [m|err]; [|easy].
    cbn [mbind result_bind].
    exact (discover_bounded tc c fs _ _ {| graph := ∅; cache := bc |} _ Hb E). }
  apply H. simpl. lia.
Qed.

(** * The walks never stop for lack of fuel *)


Lemma shrinks (X Y : gset string) (x : string) :
  x ∈ X -> x ∉ Y -> X ∖ ({[x]} ∪ Y) ⊂ X ∖ Y.
Proof.
  intros Hx Hy. split.
  - intros y [Hy1 Hy2]%elem_of_difference. apply elem_of_difference.
    split; [exact Hy1|]. intros Hy3. apply Hy2, elem_of_union. now right.
  - intros Hsub.
    assert (x ∈ X ∖ ({[x]} ∪ Y)) as [_ Hn]%elem_of_difference.
    { apply Hsub, elem_of_difference. now split. }
    apply Hn, elem_of_union. left. now apply elem_of_singleton.
Qed.

Section FuelFacts.
Variables (tc : Toolchain) (c : Configuration) (fs : FileSystem).

Lemma resolve_all_fuel requester specifiers :
  resolve_all c fs requester specifiers <> Err OutOfFuel.
Proof.
  induction specifiers as [|s rest IH]; simpl; [easy|].
  destruct (resolve_with c fs requester s); [|exact IH|easy].
  destruct (resolve_all c fs requester rest); simpl; [easy|exact IH].
Qed.

Lemma foldl_graph_mono (step : string -> BuildState -> Result BuildState) edges :
  (forall dep s s', step dep s = Ok s' -> dom (graph s) ⊆ dom (graph s')) ->
  forall s0 st',
    foldl (fun acc dep => st' ← acc; step dep st') (Ok s0) edges = Ok st' ->
    dom (graph s0) ⊆ dom (graph st').
Proof.
  intros Hstep. induction edges as [|d edges IH]; simpl; intros s0 st' H.
  - injection H as E. now rewrite E.
  - destruct (step d s0) as [s1|e] eqn:E.
    + etransitivity; [exact (Hstep d s0 s1 E)|]. now apply IH.
    + now rewrite foldl_stays_err in H.
Qed.

Lemma discover_graph_mono fuel : forall id st st',
  discover tc c fs fuel id st = Ok st' -> dom (graph st) ⊆ dom (graph st').
Proof.
  induction fuel as [|fuel IH]; intros id st st'; simpl; [easy|].
  destruct (graph st !! id) as [n|]; [now intros [= <-]|].
  destruct (fs !! id) as [bytes|]; [|easy].
  destruct (cached_transform tc c id bytes (cache st)) as [o b].
  destruct o as [r|reason]; [|easy].
  destruct (resolve_all c fs id (dependencies r)) as [edges|e]; simpl; [|easy].
  intros H. apply (foldl_graph_mono (discover tc c fs fuel)) in H; [|exact IH].
  simpl in H. rewrite dom_insert_L in H.
intros x Hx. apply H, elem_of_union. now right.
Qed.

#[local] Abbreviation unvisited := (unvisited fs).

Lemma discover_fuel fuel : forall id st,
  unvisited st < fuel -> discover tc c fs fuel id st <> Err OutOfFuel.
Proof.
  induction fuel as [|fuel IH]; intros id st Hlt; [lia|]. simpl.
  destruct (graph st !! id) as [n|] eqn:Hg; [easy|].
  destruct (fs !! id) as [bytes|] eqn:Hf; [|easy].
  destruct (cached_transform tc c id bytes (cache st)) as [o b].
  destruct o as [r|reason]; [|easy].
  pose proof (resolve_all_fuel id (dependencies r)) as Hr.
  destruct (resolve_all c fs id (dependencies r)) as [edges|e]; simpl; [|congruence].
  apply (foldl_fuel (discover tc c fs fuel) (fun s => unvisited s < fuel)).
  - intros d s Hs. split; [now apply IH|].
    intros s' E. apply discover_graph_mono in E.
    unfold unvisited in *. eapply Nat.le_lt_trans; [|exact Hs].
    apply subseteq_size. intros x [Hx Hn]%elem_of_difference.
  apply elem_of_difference. split; [exact Hx|]. intros Hs'. apply Hn, E, Hs'.
  - unfold unvisited in *. simpl. rewrite dom_insert_L.
    assert (dom fs ∖ ({[id]} ∪ dom (graph st)) ⊂ dom fs ∖ dom (graph st)) as Hsub.
    { apply elem_of_dom_2 in Hf. apply not_elem_of_dom in Hg.
  now apply shrinks. }
    apply subset_size in Hsub. lia.
Qed.
End FuelFacts.

Lemma mem_false x l : mem x l = false -> x ∉ l.
Proof.
  unfold mem. intros H Hin. apply list_elem_of_In in Hin.
  assert (existsb (String.eqb x) l = true) as E; [|congruence].
  apply existsb_exists. exists x. split; [exact Hin|apply String.eqb_refl].
Qed.

Lemma visit_fuel (g : gmap string GraphNode) fuel : forall stack id done,
  off_stack g stack < fuel -> visit g fuel stack id done <> Err OutOfFuel.
Proof.
  induction fuel as [|fuel IH]; intros stack id done Hlt; [lia|]. simpl.
  destruct (mem id done); [easy|].
  destruct (mem id stack) eqn:Hs; [easy|].
  destruct (g !! id) as [n|] eqn:Hg; [|easy].
  assert (Hf : foldl (fun acc dep => d ← acc; visit g fuel (id :: stack) dep d)
                     (Ok done) (node_edges n) <> Err OutOfFuel).
  { apply (foldl_fuel (visit g fuel (id :: stack)) (fun _ => True)); [|exact I].
    intros d s _. split; [|easy]. apply IH.
    unfold off_stack in *. simpl.
    assert (dom g ∖ ({[id]} ∪ list_to_set stack) ⊂ dom g ∖ list_to_set stack) as Hsub.
    { apply elem_of_dom_2 in Hg. apply mem_false in Hs.
      apply shrinks; [exact Hg|]. now rewrite elem_of_list_to_set. }
    apply subset_size in Hsub. lia. }
  destruct (foldl _ _ _) as [done'|e]; simpl; [easy|congruence].
Qed.

Lemma emit_fuel tc c fs g order : emit tc c fs g order <> Err OutOfFuel.
Proof.
  unfold emit.
  destruct (make_chunk tc c g entry_name "js" _) as [script w1].
  destruct (match List.filter (separate_style c) order with
            | [] => ([], [])
            | _ :: _ => _
            end) as [styles w2].
  destruct (template_path c) as [t|]; [|easy].
  destruct (fs !! t); easy.
Qed.

(** A build ends with a manifest or with an error of the build itself: the
    depth given to the two walks (one more than the number of files, one
    more than the number of units) is never used up. *)
Lemma build_terminates tc c fs bc : outcome (build tc c fs bc) <> Err OutOfFuel.
Proof.
  unfold build.
  destruct (resolve_with c fs "" (entry c)) as [e|s|s from reason]; [|easy|easy].
  pose proof (discover_fuel tc c fs (S (size fs)) e {| graph := ∅; cache := bc |}) as Hd.
  destruct (discover tc c fs (S (size fs)) e {| graph := ∅; cache := bc |}) as [s1|e1].
  2:{ simpl. intros [= ->]. apply Hd; [|reflexivity].
      unfold unvisited. simpl. rewrite dom_empty_L, difference_empty_L, size_dom. lia. }
  cbn [mbind result_bind].
  pose proof (visit_fuel (graph s1) (S (size (graph s1))) [] e []) as Hv.
  unfold topologicalOrder.
  destruct (visit (graph s1) (S (size (graph s1))) [] e []) as [order|e2].
  2:{ simpl. intros [= ->]. apply Hv; [|reflexivity].
      unfold off_stack. simpl. rewrite difference_empty_L, size_dom. lia. }
  cbn [mbind result_bind].
  pose proof (emit_fuel tc c fs (graph s1) order) as He.
  destruct (emit tc c fs (graph s1) order) as [m|e3]; simpl; congruence.
Qed.

(** * The emitter *)

Lemma length_append (a b : string) :
  String.length (a +:+ b) = String.length a + String.length b.
Proof. induction a as [|x a IH]; simpl; [reflexivity|now rewrite IH]. Qed.

Lemma length_substring n : forall s,
  n <= String.length s -> String.length (String.substring 0 n s) = n.
Proof.
  induction n as [|n IH]; intros [|x s]; simpl; intros H; try reflexivity; try lia.
  rewrite IH; [reflexivity|lia].
Qed.

Lemma hash8_length tc bytes : String.length (hash8 tc bytes) = 8.
Proof.
  unfold hash8. apply length_substring. rewrite length_append. simpl. lia.
Qed.

Lemma make_chunk_hash tc c g name ext ids ch ws :
  make_chunk tc c g name ext ids = (ch, ws) ->
  content_hash ch = hash8 tc (final_bytes ch) /\
  logical_name ch = name /\ extension ch = ext /\ members ch = ids.
Proof.
  unfold make_chunk.
  destruct (reduce tc (mode c) (String.concat "" (map (member_code g) ids))) as [bytes w].
  now intros [= <- <-].
Qed.

(** What [emit] produces: a script chunk, at most one style chunk, each
    hashed over its final bytes and written under its hashed name, and the
    HTML shell when the configuration names a template. *)
Lemma emit_inv tc c fs g order m :
  emit tc c fs g order = Ok m ->
  exists script styles,
    chunks m = script :: styles /\
    extension script = "js" /\
    Forall (fun ch => content_hash ch = hash8 tc (final_bytes ch)) (chunks m) /\
    match template_path c with
    | None => files m = map (chunk_asset c) (chunks m)
    | Some t =>
        exists template,
          fs !! t = Some template /\
          files m =
            {| file_name := in_output_dir c "index.html";
               contents := inject tc [chunk_file_name script]
                             (map chunk_file_name styles) template |}
            :: map (chunk_asset c) (chunks m)
    end.
Proof.
  unfold emit.
  destruct (make_chunk tc c g entry_name "js"
              (List.filter (fun id => negb (separate_style c id)) order))
    as [script w1] eqn:Es.
  apply make_chunk_hash in Es as (Hs & _ & Hext & _).
  set (style_ids := List.filter (separate_style c) order).
  assert (Hst : exists styles w2,
             match style_ids with
             | [] => ([], [])
             | _ :: _ => let '(ch, w) := make_chunk tc c g entry_name "css" style_ids in
                         ([ch], w)
             end = (styles, w2) /\
             Forall (fun ch => content_hash ch = hash8 tc (final_bytes ch)) styles).
  { destruct style_ids as [|i ids]; [now exists [], []|].
    destruct (make_chunk tc c g entry_name "css" (i :: ids)) as [ch w] eqn:Ec.
    apply make_chunk_hash in Ec as (Hc & _). exists [ch], w. split; [reflexivity|].
    now repeat constructor. }
  destruct Hst as (styles & w2 & -> & Hf).
  destruct (template_path c) as [t|].
  - destruct (fs !! t) as [template|] eqn:Ht; [|easy].
    intros [= <-]. exists script, styles. simpl. repeat split; auto.
    now exists template.
  - intros [= <-]. exists script, styles. simpl. repeat split; auto.
Qed.

Lemma build_inv tc c fs bc m bc' :
  build tc c fs bc = Ok (m, bc') ->
  exists g order, emit tc c fs g order = Ok m.
Proof.
  unfold build. generalize (S (size fs)) as fuel. intros fuel.
  destruct (resolve_with c fs "" (entry c)) as [e|s|s from reason]; [|easy|easy].
  destruct (discover tc c fs fuel e {| graph := ∅; cache := bc |}) as [s1|e1]; simpl; [|easy].
  destruct (topologicalOrder (graph s1) e) as [order|err]; simpl; [|easy].
  destruct (emit tc c fs (graph s1) order) as [m'|err] eqn:Ee; simpl; [|easy].
  intros [= <- <-]. now exists (graph s1), order.
Qed.

Lemma in_output_dir_chunk c ch :
  file_name (chunk_asset c ch)
    = path (output c) +:+ "/" +:+ logical_name ch +:+ "." +:+ content_hash ch
        +:+ "." +:+ extension ch.
Proof. reflexivity. Qed.

(** The first [n] characters of a text that has that many are a prefix of
    it, whatever is appended to the text. *)
Lemma substring_is_prefix n : forall s pad,
  n <= String.length s ->
  exists rest, s = String.substring 0 n (s +:+ pad) +:+ rest.
Proof.
  induction n as [|n IH]; intros s pad H.
  - exists s. now destruct (s +:+ pad).
  - destruct s as [|x s]; simpl in H; [lia|].
    destruct (IH s pad) as (rest & E); [lia|].
    exists rest. simpl. now rewrite <- E.
Qed.

(** C3: every chunk of a build is written to the output directory under
    [<outputDir>/<logical-name>.<hash8>.<ext>] with its final bytes as the
    contents, and every file of the build other than the HTML shell has such
    a name, in which the hash has eight characters and is taken from the
    digest of that file's own contents: its first eight characters (all of
    them a prefix of the digest when the digest has eight or more). *)
Theorem hashed_chunk_file_names (tc : Toolchain) (c : Configuration) (fs : FileSystem)
    (bc : BuildCache) (m : AssetManifest) (bc' : BuildCache) :
  build tc c fs bc = Ok (m, bc') ->
  (forall ch, In ch (chunks m) ->
     In {| file_name := path (output c) +:+ "/" +:+ logical_name ch +:+ "."
                          +:+ String.substring 0 8 (digest tc (final_bytes ch) +:+ "00000000")
                          +:+ "." +:+ extension ch;
           contents := final_bytes ch |} (files m)) /\
  (forall a, In a (files m) ->
     file_name a = path (output c) +:+ "/" +:+ "index.html" \/
     exists logical ext h,
       file_name a = path (output c) +:+ "/" +:+ logical +:+ "." +:+ h +:+ "." +:+ ext /\
       String.length h = 8 /\
       h = String.substring 0 8 (digest tc (contents a) +:+ "00000000") /\
       (8 <= String.length (digest tc (contents a)) ->
        exists rest, digest tc (contents a) = h +:+ rest)).
Proof.
  intros H. apply build_inv in H as (g & order & H).
  apply emit_inv in H as (script & styles & Hc & _ & Hh & Hf).
  rewrite Forall_forall in Hh. unfold hash8 in Hh.
  assert (Hfiles : forall a, In a (files m) <->
            (a = {| file_name := in_output_dir c "index.html"; contents := contents a |}
             /\ template_path c <> None /\ In a (files m))
            \/ In a (map (chunk_asset c) (chunks m))).
  { intros a. destruct (template_path c) as [t|].
    - destruct Hf as (template & _ & ->). simpl. split.
      + intros [<-|Ha]; [left; repeat split; [easy|now left]|now right].
      + intros [(_ & _ & Ha)|Ha]; [exact Ha|now right].
    - rewrite Hf. split; [now right|]. now intros [(_ & E & _)|Ha]. }
  split.
  - intros ch Hin. apply Hfiles. right.
    apply in_map_iff. exists ch. split; [|exact Hin].
    unfold chunk_asset, in_output_dir, chunk_file_name.
    rewrite (Hh ch) by now apply list_elem_of_In. reflexivity.
  - intros a Ha. apply Hfiles in Ha as [(E & _)|Ha].
    + left. now rewrite E.
    + right. apply in_map_iff in Ha as (ch & <- & Hin).
      exists (logical_name ch), (extension ch), (content_hash ch).
      rewrite in_output_dir_chunk. simpl.
      rewrite (Hh ch) by now apply list_elem_of_In.
      split; [reflexivity|]. split; [apply (hash8_length tc)|]. split; [reflexivity|].
      apply substring_is_prefix.
Qed.

Lemma fill_lines_spec tc scripts styles ls :
  Forall2 (fun line piece =>
             if String.eqb line (script_marker tc)
             then piece = unlines (map script_tag scripts)
             else if String.eqb line (style_marker tc)
                  then piece = unlines (map style_tag styles)
                  else piece = line)
          ls (map (fill_line tc scripts styles) ls).
Proof.
  induction ls as [|l ls IH]; simpl; constructor; [|exact IH].
  unfold fill_line.
  destruct (String.eqb l (script_marker tc)); [reflexivity|].
  destruct (String.eqb l (style_marker tc)); reflexivity.
Qed.


(** * Reproducibility and the cache *)







(** * The application, built and run *)


(** The application's build is an instance of the naming rule. *)
Lemma hashed_chunk_file_names_witness :
  (forall ch, In ch (chunks Scenario.manifest) ->
     In {| file_name := path (output Scenario.configuration) +:+ "/" +:+ logical_name ch
                          +:+ "."
                          +:+ String.substring 0 8
                                (digest Scenario.toolchain (final_bytes ch) +:+ "00000000")
                          +:+ "." +:+ extension ch;
           contents := final_bytes ch |} (files Scenario.manifest)) /\
  (forall a, In a (files Scenario.manifest) ->
     file_name a = path (output Scenario.configuration) +:+ "/" +:+ "index.html" \/
     exists logical ext h,
       file_name a = path (output Scenario.configuration) +:+ "/" +:+ logical +:+ "."
                       +:+ h +:+ "." +:+ ext /\
       String.length h = 8 /\
       h = String.substring 0 8 (digest Scenario.toolchain (contents a) +:+ "00000000") /\
       (8 <= String.length (digest Scenario.toolchain (contents a)) ->
        exists rest, digest Scenario.toolchain (contents a) = h +:+ rest)).
Proof.
  apply (hashed_chunk_file_names Scenario.toolchain Scenario.configuration
           Scenario.file_system empty_cache Scenario.manifest Scenario.cache_after).
  vm_compute. reflexivity.
Defined.


(** With [src/test.ts] and [src/test.js] both present and no [src/test], the
    specifier [./test] goes to the [.ts] file, which comes first in the
    configured list; a directory is entered through its index file. *)
Lemma resolution_order_witness :
  resolve_with Scenario.configuration Scenario.crowded_file_system
    "src/index.ts" "./test" = Resolved "src/test.ts" /\
  resolve_with Scenario.configuration Scenario.crowded_file_system
    "src/index.ts" "./lib" = Resolved "src/lib/index.js" /\
  resolve_with Scenario.configuration Scenario.crowded_file_system
    "src/index.ts" "./test.js" = Resolved "src/test.js" /\
  resolve_with Scenario.configuration Scenario.crowded_file_system
    "src/index.ts" "react" = External "react".
Proof.
  split; [|split; [|split]].
  - apply (proj1 (proj2 (proj2 (resolution_order Scenario.configuration
             Scenario.crowded_file_system "src/index.ts" "./test")))
             [".tsx"] ".ts" [".js"]); try reflexivity.
    intros e [<-|[]]. reflexivity.
  - apply (proj1 (proj2 (proj2 (proj2 (resolution_order Scenario.configuration
             Scenario.crowded_file_system "src/index.ts" "./lib"))))
             [".tsx"; ".ts"] ".js" []); try reflexivity.
    + intros e [<-|[<-|[<-|[]]]]; reflexivity.
    + intros e [<-|[<-|[]]]; reflexivity.
  - apply (proj1 (proj2 (resolution_order Scenario.configuration
             Scenario.crowded_file_system "src/index.ts" "./test.js"))).
    reflexivity.
  - apply (proj1 (proj2 (proj2 (proj2 (proj2 (resolution_order Scenario.configuration
             Scenario.crowded_file_system "src/index.ts" "react")))))).
    intros p Hp. vm_compute in Hp.
    repeat (destruct Hp as [<-|Hp]; [reflexivity|]). destruct Hp.
Defined.

(** * The reach of the three rules *)

Lemma char_matches_intro ic x c :
  canonicalize ic c = canonicalize ic x -> char_matches ic x c = true.
Proof. unfold char_matches. intros ->. apply Ascii.eqb_refl. Qed.

Lemma char_matches_exact x c : char_matches false x c = true -> c = x.
Proof. intros H. now apply char_matches_true in H. Qed.

(** A literal without flags matches at a position exactly when the text
    there starts with it. *)
Lemma literal_here_inv l : forall s,
  match_here false false (literal l) s = true -> exists post, s = l +:+ post.
Proof.
  induction l as [|x l IH]; simpl; intros s H.
  - now exists s.
  - destruct s as [|c s]; [discriminate|].
    apply andb_true_iff in H as [Hc Hm]. apply char_matches_exact in Hc as ->.
    destruct (IH s Hm) as (post & ->). now exists post.
Qed.

Lemma literal_here l post : match_here false false (literal l) (l +:+ post) = true.
Proof.
  induction l as [|x l IH]; simpl; [reflexivity|].
  rewrite IH, andb_true_r. now apply char_matches_intro.
Qed.

Lemma node_modules_occurs p :
  regex_test re_node_modules p = true <-> occurs_in "node_modules" p.
Proof.
  unfold regex_test, re_node_modules; cbn [re_items re_anchored re_ignore_case]. split.
  - intros H. apply search_inv in H as (pre & suf & -> & Hm).
    apply literal_here_inv in Hm as (post & ->). now exists pre, post.
  - intros (pre & post & ->). apply search_skip, search_here, literal_here.
Qed.

Lemma ts_ends p :
  regex_test re_ts p = true <-> ends_with ".t" p \/ ends_with ".ts" p.
Proof.
  unfold regex_test; simpl. split.
  - intros H. apply search_inv in H as (pre & suf & -> & Hm).
    destruct suf as [|c1 [|c2 [|c3 [|c4 suf]]]]; simpl in Hm; split_match;
      unfold canonicalize in *; subst.
    + left. now exists pre.
    + right. now exists pre.
  - intros [(stem & ->)|(stem & ->)]; apply search_skip, search_here; reflexivity.
Qed.

Ltac by_tests :=
  repeat match goal with
         | |- context [char_matches true ?x ?c] =>
             rewrite (char_matches_intro true x c)
               by (unfold canonicalize; etransitivity; [eassumption|reflexivity])
         end.

Lemma css_like p : regex_test re_css p = true <-> ends_like ".CSS" p.
Proof.
  split.
  - intros H. destruct (css_suffix p H) as (pre & c1 & c2 & c3 & c4 & -> & -> & H2 & H3 & H4).
    exists pre, (String "." (String c2 (String c3 (String c4 "")))).
    split; [reflexivity|]. simpl. now rewrite H2, H3, H4.
  - intros (stem & ext & -> & H).
    destruct ext as [|c1 [|c2 [|c3 [|c4 [|c5 ext]]]]]; try discriminate H.
    simpl in H. injection H as H1 H2 H3 H4.
    unfold regex_test; simpl. apply search_skip, search_here. simpl.
    by_tests. reflexivity.
Qed.

Lemma sass_like p :
  regex_test re_sass p = true <-> ends_like ".SASS" p \/ ends_like ".SCSS" p.
Proof.
  split.
  - intros H.
    destruct (sass_suffix p H)
      as (pre & c1 & c2 & c3 & c4 & c5 & -> & -> & H2 & [H3|H3] & H4 & H5);
      [left|right];
      exists pre, (String "." (String c2 (String c3 (String c4 (String c5 "")))));
      (split; [reflexivity|]); simpl; now rewrite H2, H3, H4, H5.
  - intros [(stem & ext & -> & H)|(stem & ext & -> & H)];
      (destruct ext as [|c1 [|c2 [|c3 [|c4 [|c5 [|c6 ext]]]]]]; try discriminate H);
      simpl in H; injection H as H1 H2 H3 H4 H5;
      unfold regex_test; simpl; apply search_skip, search_here; simpl;
      by_tests; simpl; rewrite ?orb_true_r; reflexivity.
Qed.

Lemma css_rule_applies p : rule_applies css_rule p = regex_test re_css p.
Proof. unfold rule_applies, excluded. simpl. apply andb_true_r. Qed.

Lemma sass_rule_applies p : rule_applies sass_rule p = regex_test re_sass p.
Proof. unfold rule_applies, excluded. simpl. apply andb_true_r. Qed.

(** The loaders of a resource, by the one rule that takes it. *)
Lemma application_order_table dirname p :
  application_order (module_exports dirname) p =
    if rule_applies ts_rule p then ["ts-loader"]
    else if regex_test (test css_rule) p then ["css-loader"; "style-loader"]
    else if regex_test (test sass_rule) p
         then ["sass-loader"; "css-loader"; "style-loader"]
         else [].
Proof.
  unfold application_order, loaders_for, matching_rules. simpl.
  rewrite css_rule_applies, sass_rule_applies.
  destruct (rule_applies ts_rule p) eqn:Ets.
  - assert (Hts : regex_test re_ts p = true).
    { unfold rule_applies in Ets. simpl in Ets. now apply andb_true_iff in Ets as [? _]. }
    destruct (regex_test re_css p) eqn:Ec.
    { apply css_not_ts in Ec. congruence. }
    destruct (regex_test re_sass p) eqn:Es.
    { apply sass_not_ts in Es. congruence. }
    reflexivity.
  - destruct (regex_test re_css p) eqn:Ec.
    + now rewrite (css_not_sass p Ec).
    + now destruct (regex_test re_sass p).
Qed.

(** A pattern that ends in [$] and a fixed ending it cannot read. *)
Ltac no_match :=
  unfold regex_test; simpl; apply search_none;
  [intros [|a [|b [|c [|d [|e [|f t]]]]]]; simpl; split_tests; clash
  |reflexivity].

Lemma ts_rejects_js stem : regex_test re_ts (stem +:+ ".js") = false.
Proof. no_match. Qed.

Lemma css_rejects_js stem : regex_test re_css (stem +:+ ".js") = false.
Proof. no_match. Qed.

Lemma sass_rejects_js stem : regex_test re_sass (stem +:+ ".js") = false.
Proof. no_match. Qed.

Lemma ts_rejects_upper stem : regex_test re_ts (stem +:+ ".TS") = false.
Proof. no_match. Qed.

Lemma css_rejects_ts stem : regex_test re_css (stem +:+ ".ts") = false.
Proof. no_match. Qed.

Lemma sass_rejects_ts stem : regex_test re_sass (stem +:+ ".ts") = false.
Proof. no_match. Qed.

(** ** A literal next to a text it shares no first character with *)

Lemma literal_here_app l : forall t c suf,
  absent c l = true ->
  match_here false false (literal l) (t +:+ String c suf)
    = match_here false false (literal l) t.
Proof.
  induction l as [|x l IH]; simpl; intros t c suf H; [reflexivity|].
  apply andb_true_iff in H as [Hx Hl].
  destruct t as [|a t]; simpl.
  - unfold char_matches, canonicalize. apply negb_true_iff in Hx. now rewrite Hx.
  - now rewrite IH.
Qed.

Lemma literal_search_app x l t c suf :
  absent c (String x l) = true ->
  search false false (literal (String x l)) (t +:+ String c suf)
    = search false false (literal (String x l)) t
      || search false false (literal (String x l)) (String c suf).
Proof.
  intros H. induction t as [|a t IH].
  - reflexivity.
  - change (String a t +:+ String c suf) with (String a (t +:+ String c suf)).
    cbn [search]. rewrite IH.
    change (String a (t +:+ String c suf)) with (String a t +:+ String c suf).
    rewrite (literal_here_app (String x l) (String a t) c suf H).
    now rewrite orb_assoc.
Qed.

Lemma node_modules_app t c suf :
  absent c "node_modules" = true ->
  regex_test re_node_modules (t +:+ String c suf)
    = regex_test re_node_modules t || regex_test re_node_modules (String c suf).
Proof. intros H. exact (literal_search_app _ _ t c suf H). Qed.

Lemma not_occurs_false p :
  ~ occurs_in "node_modules" p -> regex_test re_node_modules p = false.
Proof.
  intros H. destruct (regex_test re_node_modules p) eqn:E; [|reflexivity].
  apply node_modules_occurs in E. contradiction.
Qed.

Lemma css_rejects_upper_ts stem : regex_test re_css (stem +:+ ".TS") = false.
Proof. no_match. Qed.

Lemma sass_rejects_upper_ts stem : regex_test re_sass (stem +:+ ".TS") = false.
Proof. no_match. Qed.

Lemma ts_test_false_rule p : regex_test re_ts p = false -> rule_applies ts_rule p = false.
Proof. intros H. unfold rule_applies. simpl. now rewrite H. Qed.

Lemma ts_rule_true_test p : rule_applies ts_rule p = true -> regex_test re_ts p = true.
Proof. unfold rule_applies. simpl. intros H. now apply andb_true_iff in H as [? _]. Qed.

(** When the TypeScript pattern accepts a path, the loaders depend on the
    exclusion alone. *)
Lemma ts_accepted_order dirname p :
  regex_test re_ts p = true ->
  application_order (module_exports dirname) p
    = if regex_test re_node_modules p then [] else ["ts-loader"].
Proof.
  intros Hts. rewrite application_order_table.
  unfold rule_applies, excluded. simpl. rewrite Hts. simpl.
  destruct (regex_test re_node_modules p); simpl; [|reflexivity].
  destruct (regex_test re_css p) eqn:Ec.
  { apply css_not_ts in Ec. congruence. }
  destruct (regex_test re_sass p) eqn:Es; [|reflexivity].
  apply sass_not_ts in Es. congruence.
Qed.

(** X1: the TypeScript rule takes exactly the paths that end in [.t] or in
    [.ts] (the [?] of the pattern makes the [s] optional) and in which the
    text [node_modules] occurs nowhere, be it as a directory or as part of a
    name; such a path gets [ts-loader] and nothing else. *)
Theorem ts_rule_reach (dirname p : string) :
  (rule_applies ts_rule p = true <->
   (ends_with ".t" p \/ ends_with ".ts" p) /\ ~ occurs_in "node_modules" p) /\
  (rule_applies ts_rule p = true ->
   application_order (module_exports dirname) p = ["ts-loader"]).
Proof.
  split.
  - unfold rule_applies, excluded. simpl.
    rewrite andb_true_iff, negb_true_iff, ts_ends, <- node_modules_occurs.
    destruct (regex_test re_node_modules p); intuition congruence.
  - intros H. rewrite application_order_table. now rewrite H.
Qed.

Lemma ts_rule_reach_witness :
  rule_applies ts_rule "/repo/src/notes.t" = true /\
  application_order (module_exports "/repo") "/repo/src/notes.t" = ["ts-loader"] /\
  rule_applies ts_rule "/repo/src/node_modules_shim.ts" = false.
Proof.
  split; [|split].
  - apply (proj1 (ts_rule_reach "/repo" "/repo/src/notes.t")). split.
    + left. now exists "/repo/src/notes".
    + intros H. apply node_modules_occurs in H. discriminate H.
  - apply (proj2 (ts_rule_reach "/repo" "/repo/src/notes.t")). reflexivity.
  - destruct (rule_applies ts_rule "/repo/src/node_modules_shim.ts") eqn:E; [|reflexivity].
    apply (proj1 (ts_rule_reach "/repo" "/repo/src/node_modules_shim.ts")) in E
      as [_ Hn].
    exfalso. apply Hn. now exists "/repo/src/", "_shim.ts".
Defined.

(** X2: the CSS rule takes exactly the paths whose last four characters read
    [.CSS] in upper case (any mix of cases in the file), wherever the file
    lies; such a path gets [css-loader] and then [style-loader], and never
    [sass-loader] or [ts-loader]. *)
Theorem css_rule_reach (dirname p : string) :
  (rule_applies css_rule p = true <-> ends_like ".CSS" p) /\
  (ends_like ".CSS" p ->
   application_order (module_exports dirname) p = ["css-loader"; "style-loader"]).
Proof.
  rewrite css_rule_applies. split; [apply css_like|].
  intros H. apply css_like in H. rewrite application_order_table.
  rewrite (ts_test_false_rule p (css_not_ts p H)). simpl. now rewrite H.
Qed.

Lemma css_rule_reach_witness :
  rule_applies css_rule "/repo/node_modules/normalize/Normalize.Css" = true /\
  application_order (module_exports "/repo") "/repo/node_modules/normalize/Normalize.Css"
    = ["css-loader"; "style-loader"].
Proof.
  assert (H : ends_like ".CSS" "/repo/node_modules/normalize/Normalize.Css").
  { now exists "/repo/node_modules/normalize/Normalize", ".Css". }
  split.
  - now apply (proj1 (css_rule_reach "/repo" "/repo/node_modules/normalize/Normalize.Css")).
  - now apply (proj2 (css_rule_reach "/repo" "/repo/node_modules/normalize/Normalize.Css")).
Defined.

(** X3: the Sass rule takes exactly the paths whose last five characters
    read [.SASS] or [.SCSS] in upper case, with no exclusion: a stylesheet of
    an installed package is handled like one of the project. *)
Theorem sass_rule_reach (p : string) :
  rule_applies sass_rule p = true <-> ends_like ".SASS" p \/ ends_like ".SCSS" p.
Proof. rewrite sass_rule_applies. apply sass_like. Qed.

Lemma sass_rule_reach_witness :
  rule_applies sass_rule "/repo/node_modules/theme/_base.Sass" = true.
Proof.
  apply (proj2 (sass_rule_reach "/repo/node_modules/theme/_base.Sass")).
  left. now exists "/repo/node_modules/theme/_base", ".Sass".
Defined.

Lemma matching_rules_table dirname p :
  matching_rules (module_exports dirname) p =
    if rule_applies ts_rule p then [ts_rule]
    else if rule_applies css_rule p then [css_rule]
    else if rule_applies sass_rule p then [sass_rule]
    else [].
Proof.
  unfold matching_rules. simpl. rewrite css_rule_applies, sass_rule_applies.
  destruct (rule_applies ts_rule p) eqn:Ets.
  - apply ts_rule_true_test in Ets.
    destruct (regex_test re_css p) eqn:Ec.
    { apply css_not_ts in Ec. congruence. }
    destruct (regex_test re_sass p) eqn:Es; [|reflexivity].
    apply sass_not_ts in Es. congruence.
  - destruct (regex_test re_css p) eqn:Ec.
    + now rewrite (css_not_sass p Ec).
    + now destruct (regex_test re_sass p).
Qed.

(** X4: no resource is taken by two rules: at most one rule of the
    configuration applies to a path, so the loaders of a path are never a
    mix of two [use] arrays; they are the chain of the one rule that applies,
    read right to left, or none at all. *)
Theorem one_rule_per_resource (dirname p : string) :
  List.length (matching_rules (module_exports dirname) p) <= 1 /\
  (forall r1 r2, In r1 (matching_rules (module_exports dirname) p) ->
                 In r2 (matching_rules (module_exports dirname) p) -> r1 = r2) /\
  application_order (module_exports dirname) p =
    (if rule_applies ts_rule p then ["ts-loader"]
     else if rule_applies css_rule p then ["css-loader"; "style-loader"]
     else if rule_applies sass_rule p
          then ["sass-loader"; "css-loader"; "style-loader"]
          else []).
Proof.
  split; [|split].
  - rewrite matching_rules_table.
    destruct (rule_applies ts_rule p), (rule_applies css_rule p),
      (rule_applies sass_rule p); simpl; lia.
  - intros r1 r2. rewrite matching_rules_table.
    destruct (rule_applies ts_rule p), (rule_applies css_rule p),
      (rule_applies sass_rule p); simpl; intuition congruence.
  - rewrite application_order_table, css_rule_applies, sass_rule_applies. reflexivity.
Qed.

(** X5: the TypeScript pattern is case-sensitive and the style patterns are
    not: a file whose extension is written [.TS] gets no loader at all,
    while [.CSS], [.SASS] and [.SCSS] get the chains of their lower-case
    spellings. *)
Theorem upper_case_extensions (dirname stem : string) :
  application_order (module_exports dirname) (stem +:+ ".TS") = [] /\
  application_order (module_exports dirname) (stem +:+ ".CSS")
    = ["css-loader"; "style-loader"] /\
  application_order (module_exports dirname) (stem +:+ ".SASS")
    = ["sass-loader"; "css-loader"; "style-loader"] /\
  application_order (module_exports dirname) (stem +:+ ".SCSS")
    = ["sass-loader"; "css-loader"; "style-loader"].
Proof.
  split; [|split; [|split]].
  - rewrite application_order_table.
    rewrite (ts_test_false_rule _ (ts_rejects_upper stem)). simpl.
    now rewrite css_rejects_upper_ts, sass_rejects_upper_ts.
  - assert (H : regex_test re_css (stem +:+ ".CSS") = true).
    { apply css_like. now exists stem, ".CSS". }
    rewrite application_order_table, (ts_test_false_rule _ (css_not_ts _ H)).
    simpl. now rewrite H.
  - assert (H : regex_test re_sass (stem +:+ ".SASS") = true).
    { apply sass_like. left. now exists stem, ".SASS". }
    rewrite application_order_table, (ts_test_false_rule _ (sass_not_ts _ H)).
    simpl. now rewrite (sass_not_css _ H), H.
  - assert (H : regex_test re_sass (stem +:+ ".SCSS") = true).
    { apply sass_like. right. now exists stem, ".SCSS". }
    rewrite application_order_table, (ts_test_false_rule _ (sass_not_ts _ H)).
    simpl. now rewrite (sass_not_css _ H), H.
Qed.

Lemma ts_accepts stem : regex_test re_ts (stem +:+ ".ts") = true.
Proof. apply ts_ends. right. now exists stem. Qed.

(** X6: of the extensions the configuration resolves ([.tsx], [.ts],
    [.js]), only [.ts] is ever transformed: a resolved [.js] or [.tsx] file
    gets no loader, and a resolved [.ts] file gets [ts-loader] unless
    [node_modules] occurs in its path. *)
Theorem resolvable_extensions_loaders (dirname e stem : string) :
  In e (extensions (resolve (module_exports dirname))) ->
  (e <> ".ts" -> application_order (module_exports dirname) (stem +:+ e) = []) /\
  (e = ".ts" ->
   (occurs_in "node_modules" stem ->
    application_order (module_exports dirname) (stem +:+ e) = []) /\
   (~ occurs_in "node_modules" stem ->
    application_order (module_exports dirname) (stem +:+ e) = ["ts-loader"])).
Proof.
  simpl. intros [<-|[<-|[<-|[]]]].
  - split; [intros _|discriminate]. rewrite application_order_table.
    rewrite (ts_test_false_rule _ (ts_rejects_tsx stem)). simpl.
    now rewrite css_rejects_tsx, sass_rejects_tsx.
  - split; [congruence|intros _].
    rewrite (ts_accepted_order dirname _ (ts_accepts stem)).
    rewrite (node_modules_app stem "." "ts" eq_refl).
    change (regex_test re_node_modules ".ts") with false. rewrite orb_false_r.
    split; intros H.
    + apply node_modules_occurs in H. now rewrite H.
    + now rewrite (not_occurs_false stem H).
  - split; [intros _|discriminate]. rewrite application_order_table.
    rewrite (ts_test_false_rule _ (ts_rejects_js stem)). simpl.
    now rewrite css_rejects_js, sass_rejects_js.
Qed.

Lemma resolvable_extensions_loaders_witness :
  application_order (module_exports "/repo") ("/repo/src/test" +:+ ".js") = [] /\
  application_order (module_exports "/repo") ("/repo/src/index" +:+ ".ts") = ["ts-loader"].
Proof.
  split.
  - apply (proj1 (resolvable_extensions_loaders "/repo" ".js" "/repo/src/test"
                    (or_intror (or_intror (or_introl eq_refl))))).
    discriminate.
  - apply (proj2 (resolvable_extensions_loaders "/repo" ".ts" "/repo/src/index"
                    (or_intror (or_introl eq_refl))) eq_refl).
    intros H. apply node_modules_occurs in H. discriminate H.
Defined.

Lemma entry_resource_path dirname context :
  entry_resource context (module_exports dirname)
    = if String.eqb context "/" then "/src/index.ts"
      else context +:+ String "/" "src/index.ts".
Proof. unfold entry_resource, path_resolve. now destruct (String.eqb context "/"). Qed.

(** X7: the exclusion is tested on the whole path of a file, so it reaches
    the project's own entry point: run in a directory in whose path
    [node_modules] occurs, the bundler gives [src/index.ts] no loader at all;
    run anywhere else, it gives it [ts-loader] alone. *)
Theorem entry_point_loaders (dirname context : string) :
  (occurs_in "node_modules" context ->
   application_order (module_exports dirname)
     (entry_resource context (module_exports dirname)) = []) /\
  (~ occurs_in "node_modules" context ->
   application_order (module_exports dirname)
     (entry_resource context (module_exports dirname)) = ["ts-loader"]).
Proof.
  rewrite entry_resource_path.
  destruct (String.eqb context "/") eqn:E.
  - apply String.eqb_eq in E as ->. split; intros H.
    + apply node_modules_occurs in H. discriminate H.
    + reflexivity.
  - assert (Hts : regex_test re_ts (context +:+ String "/" "src/index.ts") = true).
    { unfold regex_test. apply search_skip. reflexivity. }
    rewrite (ts_accepted_order dirname _ Hts).
    rewrite (node_modules_app context "/" "src/index.ts" eq_refl).
    change (regex_test re_node_modules (String "/" "src/index.ts")) with false.
    rewrite orb_false_r. split; intros H.
    + apply node_modules_occurs in H. now rewrite H.
    + now rewrite (not_occurs_false context H).
Qed.

Lemma entry_point_loaders_witness :
  application_order (module_exports "/srv/node_modules/quick_browser_1")
    (entry_resource "/srv/node_modules/quick_browser_1"
       (module_exports "/srv/node_modules/quick_browser_1")) = [] /\
  application_order (module_exports "/repo")
    (entry_resource "/repo" (module_exports "/repo")) = ["ts-loader"].
Proof.
  split.
  - apply (proj1 (entry_point_loaders "/srv/node_modules/quick_browser_1"
                    "/srv/node_modules/quick_browser_1")).
    now exists "/srv/", "/quick_browser_1".
  - apply (proj2 (entry_point_loaders "/repo" "/repo")).
    intros H. apply node_modules_occurs in H. discriminate H.
Defined.

(** X8: whatever the mode and whatever the file, this configuration never
    has a style written to a CSS file of its own; a style is injected at run
    time exactly for the files that the CSS rule or the Sass rule takes, and
    a file that neither takes is no style at all. *)
Theorem no_separate_style_file (dirname p : string) (m : Mode) :
  style_delivery (with_mode m (module_exports dirname)) p <> SeparateFile /\
  (style_delivery (with_mode m (module_exports dirname)) p = InjectedAtRuntime <->
   rule_applies css_rule p = true \/ rule_applies sass_rule p = true) /\
  (rule_applies css_rule p = false -> rule_applies sass_rule p = false ->
   style_delivery (with_mode m (module_exports dirname)) p = NotAStyle).
Proof.
  assert (E : style_delivery (with_mode m (module_exports dirname)) p
              = match List.last (map Some (application_order (module_exports dirname) p)) None with
                | Some l => delivery_of_loader l
                | None => NotAStyle
                end) by reflexivity.
  rewrite E, application_order_table, css_rule_applies, sass_rule_applies.
  cbn [test css_rule sass_rule].
  destruct (rule_applies ts_rule p) eqn:Ets.
  - apply ts_rule_true_test in Ets.
    destruct (regex_test re_css p) eqn:Ec.
    { apply css_not_ts in Ec. congruence. }
    destruct (regex_test re_sass p) eqn:Es.
    { apply sass_not_ts in Es. congruence. }
    vm_compute. split; [discriminate|]. split; [|reflexivity].
    split; [discriminate|]. intros [H|H]; discriminate H.
  - destruct (regex_test re_css p) eqn:Ec.
    { rewrite (css_not_sass p Ec). vm_compute.
      split; [discriminate|]. split; [|discriminate]. split; [now left|reflexivity]. }
    destruct (regex_test re_sass p) eqn:Es; vm_compute.
    { split; [discriminate|]. split; [|discriminate]. split; [now right|reflexivity]. }
    split; [discriminate|]. split; [|reflexivity].
    split; [discriminate|]. intros [H|H]; discriminate H.
Qed.

Lemma no_separate_style_file_witness :
  style_delivery (with_mode production (module_exports "/repo")) "/repo/src/index.ts"
    = NotAStyle.
Proof.
  apply (proj2 (proj2 (no_separate_style_file "/repo" "/repo/src/index.ts" production)));
    reflexivity.
Defined.
